(** * pysigma: condition compiler and aggregation engine

    A shallow embedding of [pysigma/aggregation.py] and of the transformer
    callbacks of [pysigma/parser.py], followed by the properties of the
    engine that the specification states.

    Conventions.
    - Python exceptions are values of [exn]; a call yields an [outcome].
    - Mutable objects live in a [World]: the module-level singleton store,
      one store object owned by the caller, and the number of wall-clock
      readings made so far.  A method is a function [World -> outcome * World];
      the world part survives an exception, as in Python.
    - The built-ins the source calls ([int], [str.strip], [float],
      [datetime.strptime], float arithmetic) are the fields of the class
      [PyRuntime]; every general theorem holds for all of them.  The
      instance [py64] (IEEE binary64 floats) is used to run the code on
      concrete inputs. *)

From Stdlib Require Import ZArith String Ascii List Bool Lia.
From Stdlib Require Floats.
From stdpp Require Import base option list gmap strings.
Import ListNotations.

Local Open Scope Z_scope.

(** ** Exceptions and outcomes *)

Inductive exn := ValueError | TypeError | OverflowError.

Inductive outcome (A : Type) :=
| Ok (a : A)
| Raise (e : exn).
Arguments Ok {A} a.
Arguments Raise {A} e.

#[global] Instance exn_eq_dec : EqDecision exn.
Proof. solve_decision. Defined.

(** ** [datetime] and [timedelta]

    A naive [datetime] is the number of microseconds since
    0001-01-01 00:00:00, a [timedelta] a number of microseconds.  Both
    have the ranges of the Python types. *)

Abbreviation datetime := Z (only parsing).
Abbreviation timedelta := Z (only parsing).

Definition us_per_second : Z := 1000000.
Definition us_per_day : Z := 86400 * us_per_second.
Definition timedelta_max_days : Z := 999999999.
(** [date.max.toordinal() = 3652059]: 9999-12-31 is day 3652059. *)
Definition datetime_max : Z := 3652059 * us_per_day - 1.

(** [timedelta(...)] normalises to days, seconds and microseconds and
    raises OverflowError when the days are out of range. *)
Definition mk_timedelta (us : Z) : outcome timedelta :=
  if (- timedelta_max_days <=? us / us_per_day) && (us / us_per_day <=? timedelta_max_days)
  then Ok us else Raise OverflowError.

Definition timedelta_days (n : Z) := mk_timedelta (n * us_per_day).
Definition timedelta_hours (n : Z) := mk_timedelta (n * 3600 * us_per_second).
Definition timedelta_minutes (n : Z) := mk_timedelta (n * 60 * us_per_second).
Definition timedelta_seconds (n : Z) := mk_timedelta (n * us_per_second).

(** [dt - td]: OverflowError ("date value out of range") outside years 1..9999. *)
Definition datetime_sub (dt : datetime) (td : timedelta) : outcome datetime :=
  let r := dt - td in
  if (0 <=? r) && (r <=? datetime_max) then Ok r else Raise OverflowError.

(** ** String helpers: [s.endswith(c)] for a one-character [c], and [s[:-1]] *)

Fixpoint endswith (s : string) (c : ascii) : bool :=
  match s with
  | EmptyString => false
  | String a EmptyString => Ascii.eqb a c
  | String _ s' => endswith s' c
  end.

Fixpoint but_last (s : string) : string :=
  match s with
  | EmptyString => EmptyString
  | String _ EmptyString => EmptyString
  | String a s' => String a (but_last s')
  end.

(** ** Parse trees of the condition grammar

    One constructor per grammar rule that has a callback in the
    transformer; [TAtom] over a [TPipe] is a parenthesised condition. *)

(** The tokens of an aggregation clause *)
Inductive agg_function := COUNT | MIN | MAX | AVG | SUM.
Inductive cmp_op := GT | LT | EQ.


Inductive aggregation_clause (T : Type) :=
| AggCall (f : agg_function) (field group_by : option string) (op : cmp_op) (value : Z)
| AggNear (condition : T).
Arguments AggCall {T} f field group_by op value.
Arguments AggNear {T} condition.

#[local] Unset Elimination Schemes.
Inductive tree :=
| TSearchId (name : string)
| TXOf (count : option Z) (pattern : string)
| TAtom (t : tree)
| TNot (negate : bool) (t : tree)
| TAnd (ts : list tree)
| TOr (ts : list tree)
| TPipe (base : tree) (aggregation : option (aggregation_clause tree)).
#[local] Set Elimination Schemes.

(** A condition without any [pipe_rule] node, that is, without an
    aggregation clause and without a parenthesised sub-condition *)
Fixpoint pipe_free (t : tree) : bool :=
  match t with
  | TSearchId _ | TXOf _ _ => true
  | TAtom t | TNot _ t => pipe_free t
  | TAnd ts | TOr ts => forallb pipe_free ts
  | TPipe _ _ => false
  end.

(** A condition without an aggregation clause *)
Fixpoint aggregation_free (t : tree) : bool :=
  match t with
  | TSearchId _ | TXOf _ _ => true
  | TAtom t | TNot _ t => aggregation_free t
  | TAnd ts | TOr ts => forallb aggregation_free ts
  | TPipe base None => aggregation_free base
  | TPipe _ (Some _) => false
  end.

(** ** The built-ins *)

Class PyRuntime := {
  (** [str] objects held in event fields *)
  text : Type;
  text_eq_dec :: EqDecision text;
  (** [bool(s)]: the string is not empty *)
  text_truthy : text -> bool;
  (** [datetime.strptime(s, '%Y-%m-%d %H:%M:%S.%f')]; [None] is ValueError *)
  strptime : text -> option datetime;
  (** Python [float] objects *)
  pyfloat : Type;
  (** [float(s)] for a [str]; [None] is ValueError *)
  float_of_text : text -> option pyfloat;
  (** [float(n)] for an [int]; [None] is OverflowError *)
  float_of_int : Z -> option pyfloat;
  (** [float(len(events))] *)
  float_of_len : nat -> pyfloat;
  (** the literal [0.0] *)
  fzero : pyfloat;
  (** [sum(values)], [min(values)], [max(values)] on a non-empty list *)
  fsum : list pyfloat -> pyfloat;
  fmin : list pyfloat -> pyfloat;
  fmax : list pyfloat -> pyfloat;
  (** [x / n] for [n = len(values)] *)
  fdiv_len : pyfloat -> nat -> pyfloat;
  (** [x > t], [x < t], [x == t] for a float [x] and an int [t] *)
  fgt : pyfloat -> Z -> bool;
  flt : pyfloat -> Z -> bool;
  feq : pyfloat -> Z -> bool;
  (** [str(s).strip()] and [int(s)] on rule timeframes; [None] is ValueError *)
  py_strip : string -> string;
  py_int : string -> option Z;
}.

(** The wall clock: the value of the n-th call of [datetime.now()]. *)
Class Clock := wall_clock : nat -> datetime.

Section Engine.

Context `{RT : PyRuntime}.

(** ** Events

    Field values are [None], [int], [str] and [datetime] objects, which
    are hashable, and [list] and [dict] objects, which are not; an event
    is a [dict] from field names to values.  A [dict] value is kept as its
    items in insertion order: the engine tests it for emptiness and never
    compares it with another value. *)

#[local] Unset Elimination Schemes.
Inductive value :=
| VNone
| VInt (n : Z)
| VStr (s : text)
| VDatetime (t : Z)
| VList (items : list value)
| VDict (items : list (string * value)).
#[local] Set Elimination Schemes.

#[global] Instance value_eq_dec : EqDecision value.
Proof.
  refine (fix go (x y : value) {struct x} : Decision (x = y) :=
    match x, y with
    | VNone, VNone => left eq_refl
    | VInt a, VInt b => cast_if (decide (a = b))
    | VStr a, VStr b => cast_if (decide (a = b))
    | VDatetime a, VDatetime b => cast_if (decide (a = b))
    | VList a, VList b => cast_if (@list_eq_dec _ go a b)
    | VDict a, VDict b => cast_if (@list_eq_dec _ (@prod_eq_dec _ _ _ go) a b)
    | _, _ => right _
    end); congruence.
Defined.

Abbreviation Event := (gmap string value).

(** [event.get(field)], with the default [None] *)
Definition event_get (event : Event) (field : string) : value :=
  default VNone (event !! field).

(** [bool(v)] *)
Definition truthy (v : value) : bool :=
  match v with
  | VNone => false
  | VInt n => negb (n =? 0)
  | VStr s => text_truthy s
  | VDatetime _ => true
  | VList items => match items with [] => false | _ => true end
  | VDict items => match items with [] => false | _ => true end
  end.

(** [hash(v)] returns for the immutable objects and raises TypeError
    ("unhashable type") for a [list] and a [dict]. *)
Definition hashable (v : value) : bool :=
  match v with
  | VList _ | VDict _ => false
  | _ => true
  end.

(** [float(v)] *)
Definition py_float (v : value) : outcome pyfloat :=
  match v with
  | VNone => Raise TypeError
  | VInt n => match float_of_int n with Some x => Ok x | None => Raise OverflowError end
  | VStr s => match float_of_text s with Some x => Ok x | None => Raise ValueError end
  | VDatetime _ | VList _ | VDict _ => Raise TypeError
  end.

(** [ts >= cutoff_time] for a [datetime] cutoff: TypeError unless [ts] is a
    [datetime] too. *)
Definition ts_ge (ts : value) (cutoff : datetime) : outcome bool :=
  match ts with
  | VDatetime t => Ok (cutoff <=? t)
  | _ => Raise TypeError
  end.

(** ** [class AggregationState] *)

Record AggregationState := mkState {
  events : gmap string (list Event);
  timestamps : gmap string (list value);
}.

(** [AggregationState()] *)
Definition new_state : AggregationState := mkState ∅ ∅.

(** [d[k]] on a [defaultdict(list)]: the list read, and the dict in which
    the key now exists. *)
Definition dd_read {A} (d : gmap string (list A)) (k : string) : list A :=
  default [] (d !! k).
Definition dd_touch {A} (d : gmap string (list A)) (k : string) : gmap string (list A) :=
  <[k := dd_read d k]> d.
(** [d[k].append(x)] *)
Definition dd_append {A} (d : gmap string (list A)) (k : string) (x : A) : gmap string (list A) :=
  <[k := dd_read d k ++ [x]]> d.

(** ** The world *)

Inductive store_ref := GlobalStore | CallerStore.

#[global] Instance store_ref_eq_dec : EqDecision store_ref.
Proof. solve_decision. Defined.

Record World := mkWorld {
  global_state : AggregationState;   (* the module variable [aggregation_state] *)
  caller_state : AggregationState;   (* a store object created by the caller *)
  now_calls : nat;                   (* calls of [datetime.now()] so far *)
}.

(** The wall clock [wall_clock n] is the value of the n-th call of
    [datetime.now()]. *)
Context `{CK : Clock}.

Definition M (A : Type) : Type := World -> outcome A * World.

Definition ret {A} (a : A) : M A := fun w => (Ok a, w).
Definition raise {A} (e : exn) : M A := fun w => (Raise e, w).
Definition bind {A B} (m : M A) (k : A -> M B) : M B :=
  fun w => match m w with
           | (Ok a, w') => k a w'
           | (Raise e, w') => (Raise e, w')
           end.
Definition lift {A} (o : outcome A) : M A := fun w => (o, w).

Notation "'let!' x ':=' m 'in' k" := (bind m (fun x => k))
  (at level 10, x name, m at level 100, k at level 200).
Notation "m ';;' k" := (bind m (fun _ => k))
  (at level 100, k at level 200, right associativity).

(** [datetime.now()] *)
Definition now : M datetime :=
  fun w => (Ok (wall_clock (now_calls w)),
            mkWorld (global_state w) (caller_state w) (S (now_calls w))).

Definition state_of (self : store_ref) (w : World) : AggregationState :=
  match self with GlobalStore => global_state w | CallerStore => caller_state w end.

Definition set_state (self : store_ref) (st : AggregationState) (w : World) : World :=
  match self with
  | GlobalStore => mkWorld st (caller_state w) (now_calls w)
  | CallerStore => mkWorld (global_state w) st (now_calls w)
  end.

Definition read_state (self : store_ref) : M AggregationState :=
  fun w => (Ok (state_of self w), w).
Definition update_state (self : store_ref) (f : AggregationState -> AggregationState) : M unit :=
  fun w => (Ok tt, set_state self (f (state_of self w)) w).

Definition events_append (rule_id : string) (event : Event) (st : AggregationState) :=
  mkState (dd_append (events st) rule_id event) (timestamps st).
Definition timestamps_append (rule_id : string) (ts : value) (st : AggregationState) :=
  mkState (events st) (dd_append (timestamps st) rule_id ts).
Definition events_touch (rule_id : string) (st : AggregationState) :=
  mkState (dd_touch (events st) rule_id) (timestamps st).

(** [AggregationState.add_event] *)
Definition add_event (self : store_ref) (rule_id : string) (event : Event)
    (timestamp_field : string) : M unit :=
  update_state self (events_append rule_id event) ;;
  let ts := event_get event timestamp_field in
  if truthy ts then
    match ts with
    | VStr s =>
        match strptime s with
        | Some dt => update_state self (timestamps_append rule_id (VDatetime dt))
        | None => (* ValueError, caught *)
            let! t := now in
            update_state self (timestamps_append rule_id (VDatetime t))
        end
    | _ => update_state self (timestamps_append rule_id ts)
    end
  else
    let! t := now in
    update_state self (timestamps_append rule_id (VDatetime t)).

(** [AggregationState._parse_timeframe] *)
Definition int_then {A} (s : string) (k : Z -> outcome A) : outcome A :=
  match py_int s with
  | Some n => k n
  | None => Raise ValueError
  end.

Definition _parse_timeframe (timeframe : string) : outcome (option timedelta) :=
  if decide (timeframe = EmptyString) then Ok None else
  let timeframe := py_strip timeframe in
  let some (o : outcome timedelta) : outcome (option timedelta) :=
    match o with Ok d => Ok (Some d) | Raise e => Raise e end in
  if endswith timeframe "M" then
    some (int_then (but_last timeframe) (fun n => timedelta_days (n * 30)))
  else if endswith timeframe "d" then
    some (int_then (but_last timeframe) timedelta_days)
  else if endswith timeframe "h" then
    some (int_then (but_last timeframe) timedelta_hours)
  else if endswith timeframe "m" then
    some (int_then (but_last timeframe) timedelta_minutes)
  else if endswith timeframe "s" then
    some (int_then (but_last timeframe) timedelta_seconds)
  else Ok None.

(** The units of a timeframe: the suffix and its length in seconds *)
Definition timeframe_units : list (ascii * Z) :=
  [("M"%char, 2592000); ("d"%char, 86400); ("h"%char, 3600); ("m"%char, 60);
   ("s"%char, 1)].

(** The loop of [cleanup_old_events] over [zip(events, timestamps)], with
    its two accumulators. *)
Fixpoint keep_recent (cutoff_time : datetime) (pairs : list (Event * value))
    (new_events : list Event) (new_timestamps : list value)
    : outcome (list Event * list value) :=
  match pairs with
  | [] => Ok (new_events, new_timestamps)
  | (event, ts) :: rest =>
      match ts_ge ts cutoff_time with
      | Raise e => Raise e
      | Ok true => keep_recent cutoff_time rest (new_events ++ [event]) (new_timestamps ++ [ts])
      | Ok false => keep_recent cutoff_time rest new_events new_timestamps
      end
  end.

(** [AggregationState.cleanup_old_events] *)
Definition cleanup_old_events (self : store_ref) (rule_id : string) (timeframe : string)
    : M unit :=
  let! st := read_state self in
  if decide (timeframe = EmptyString) then ret tt
  else if decide (timestamps st !! rule_id = None) then ret tt
  else
    let! time_limit := lift (_parse_timeframe timeframe) in
    match time_limit with
    | None => ret tt
    | Some time_limit =>
        let! t := now in
        let! cutoff_time := lift (datetime_sub t time_limit) in
        update_state self (events_touch rule_id) ;;
        let! st := read_state self in
        let! kept := lift (keep_recent cutoff_time
                             (zip (dd_read (events st) rule_id) (dd_read (timestamps st) rule_id))
                             [] []) in
        update_state self (fun st =>
          mkState (<[rule_id := kept.1]> (events st))
                  (<[rule_id := kept.2]> (timestamps st)))
    end.

(** [AggregationState.get_events] *)
Definition get_events (self : store_ref) (rule_id : string) : M (list Event) :=
  update_state self (events_touch rule_id) ;;
  let! st := read_state self in
  ret (dd_read (events st) rule_id).

(** [AggregationState.clear_rule] *)
Definition clear_rule (self : store_ref) (rule_id : string) : M unit :=
  update_state self (fun st =>
    mkState (delete rule_id (events st)) (delete rule_id (timestamps st))).

(** [get_aggregation_state()] returns the module singleton;
    [reset_aggregation_state()] replaces it by a new object. *)
Definition reset_aggregation_state : M unit :=
  fun w => (Ok tt, mkWorld new_state (caller_state w) (now_calls w)).


(** ** Vocabulary for the properties of the store *)

(** The retained history of a rule: its events paired with their timestamps. *)
Definition history (st : AggregationState) (rule_id : string) : list (Event * value) :=
  zip (dd_read (events st) rule_id) (dd_read (timestamps st) rule_id).

(** The event and timestamp sequences of every rule have the same length. *)
Definition coindexed (st : AggregationState) : Prop :=
  forall rule_id,
    length (dd_read (events st) rule_id) = length (dd_read (timestamps st) rule_id).

Definition store_inv (w : World) : Prop := forall self, coindexed (state_of self w).

Definition is_datetime (v : value) : bool :=
  match v with VDatetime _ => true | _ => false end.

(** An entry is recent when its timestamp is not before the cutoff. *)
Definition recent (cutoff : datetime) (entry : Event * value) : bool :=
  match entry.2 with
  | VDatetime t => cutoff <=? t
  | _ => false
  end.

(** The world after one more reading of the clock *)
Definition tick (w : World) : World :=
  mkWorld (global_state w) (caller_state w) (S (now_calls w)).

(** The state [cleanup_old_events] leaves when its loop has run to the end *)
Definition cleaned (cutoff : datetime) (rule_id : string) (st : AggregationState)
    : AggregationState :=
  mkState (<[rule_id := (List.filter (recent cutoff) (history st rule_id)).*1]> (events st))
          (<[rule_id := (List.filter (recent cutoff) (history st rule_id)).*2]> (timestamps st)).

(** The five ways a call of [cleanup_old_events] can go. *)
Inductive cleanup_run (self : store_ref) (rule_id timeframe : string) (w : World)
    : outcome unit * World -> Prop :=
| cleanup_noop :
    timeframe = EmptyString \/ timestamps (state_of self w) !! rule_id = None
      \/ _parse_timeframe timeframe = Ok None ->
    cleanup_run self rule_id timeframe w (Ok tt, w)
| cleanup_bad_timeframe e :
    timeframe ≠ EmptyString -> timestamps (state_of self w) !! rule_id ≠ None ->
    _parse_timeframe timeframe = Raise e ->
    cleanup_run self rule_id timeframe w (Raise e, w)
| cleanup_bad_cutoff time_limit e :
    timeframe ≠ EmptyString -> timestamps (state_of self w) !! rule_id ≠ None ->
    _parse_timeframe timeframe = Ok (Some time_limit) ->
    datetime_sub (wall_clock (now_calls w)) time_limit = Raise e ->
    cleanup_run self rule_id timeframe w (Raise e, tick w)
| cleanup_bad_timestamp time_limit cutoff e :
    timeframe ≠ EmptyString -> timestamps (state_of self w) !! rule_id ≠ None ->
    _parse_timeframe timeframe = Ok (Some time_limit) ->
    datetime_sub (wall_clock (now_calls w)) time_limit = Ok cutoff ->
    keep_recent cutoff (history (state_of self w) rule_id) [] [] = Raise e ->
    cleanup_run self rule_id timeframe w
      (Raise e, set_state self (events_touch rule_id (state_of self w)) (tick w))
| cleanup_done time_limit cutoff :
    timeframe ≠ EmptyString -> timestamps (state_of self w) !! rule_id ≠ None ->
    _parse_timeframe timeframe = Ok (Some time_limit) ->
    datetime_sub (wall_clock (now_calls w)) time_limit = Ok cutoff ->
    Forall (fun entry => is_datetime entry.2 = true) (history (state_of self w) rule_id) ->
    cleanup_run self rule_id timeframe w
      (Ok tt, set_state self (cleaned cutoff rule_id (state_of self w)) (tick w)).

(** ** [class AggregationEvaluator] *)

(** [bool(s)] for an [Optional[str]] *)
Definition str_truthy (s : option string) : bool :=
  match s with
  | Some s => if decide (s = EmptyString) then false else true
  | None => false
  end.

(** [bool(e)] for an [Optional[Dict]] *)
Definition event_truthy (e : option Event) : bool :=
  match e with
  | Some e => if decide (e = ∅) then false else true
  | None => false
  end.

(** The loop of [_compute_aggregation] that collects the coerced values.
    [float(val)] raising ValueError or TypeError is caught and the event
    skipped; any other exception leaves the loop. *)
Fixpoint extract_values (field : string) (events : list Event) (values : list pyfloat)
    : outcome (list pyfloat) :=
  match events with
  | [] => Ok values
  | event :: rest =>
      match event_get event field with
      | VNone => extract_values field rest values
      | val =>
          match py_float val with
          | Ok x => extract_values field rest (values ++ [x])
          | Raise ValueError | Raise TypeError => extract_values field rest values
          | Raise e => Raise e
          end
      end
  end.

(** [AggregationEvaluator._compute_aggregation] *)
Definition _compute_aggregation (func_name : string) (field : option string)
    (events : list Event) : outcome pyfloat :=
  if decide (func_name = "count") then Ok (float_of_len (length events))
  else if negb (str_truthy field) then Ok fzero
  else
    match extract_values (default EmptyString field) events [] with
    | Raise e => Raise e
    | Ok [] => Ok fzero
    | Ok values =>
        if decide (func_name = "sum") then Ok (fsum values)
        else if decide (func_name = "min") then Ok (fmin values)
        else if decide (func_name = "max") then Ok (fmax values)
        else if decide (func_name = "avg") then Ok (fdiv_len (fsum values) (length values))
        else Ok fzero
    end.

(** [AggregationEvaluator._compare] *)
Definition _compare (value : pyfloat) (op : string) (threshold : Z) : bool :=
  if decide (op = ">") then fgt value threshold
  else if decide (op = "<") then flt value threshold
  else if decide (op = "=") then feq value threshold
  else false.

(** [groups = defaultdict(list)], a dict in insertion order.  A key is
    hashed before the dict is searched, so that every access with a [list]
    or a [dict] as key raises TypeError. *)
Abbreviation Groups := (list (value * list Event)).

(** The entry of a hashable key, if there is one *)
Fixpoint groups_find (groups : Groups) (key : value) : option (list Event) :=
  match groups with
  | [] => None
  | (k, g) :: rest => if decide (k = key) then Some g else groups_find rest key
  end.

(** The dict after [groups[key].append(event)], for a hashable key *)
Fixpoint groups_insert (groups : Groups) (key : value) (event : Event) : Groups :=
  match groups with
  | [] => [(key, [event])]
  | (k, g) :: rest =>
      if decide (k = key) then (k, g ++ [event]) :: rest
      else (k, g) :: groups_insert rest key event
  end.

(** [groups[key].append(event)] *)
Definition groups_append (groups : Groups) (key : value) (event : Event) : outcome Groups :=
  if hashable key then Ok (groups_insert groups key event) else Raise TypeError.

(** The loop of [evaluate] that fills [groups] *)
Fixpoint group_events (group_by : string) (events : list Event) (groups : Groups)
    : outcome Groups :=
  match events with
  | [] => Ok groups
  | event :: rest =>
      let key := event_get event group_by in
      match groups_append groups key event with
      | Ok groups => group_events group_by rest groups
      | Raise e => Raise e
      end
  end.

(** [key in groups], then [groups[key]]: [None] when the key is absent *)
Definition groups_lookup (groups : Groups) (key : value) : outcome (option (list Event)) :=
  if hashable key then Ok (groups_find groups key) else Raise TypeError.

(** The fallback loop of [evaluate] over [groups.items()] *)
Fixpoint any_group (func_name : string) (field : option string) (comparison_op : string)
    (threshold : Z) (groups : Groups) : outcome bool :=
  match groups with
  | [] => Ok false
  | (_, group) :: rest =>
      match _compute_aggregation func_name field group with
      | Raise e => Raise e
      | Ok result =>
          if _compare result comparison_op threshold then Ok true
          else any_group func_name field comparison_op threshold rest
      end
  end.

(** The first statement of [evaluate]: expiry, when a timeframe is given *)
Definition expire (self : store_ref) (rule_id : string) (timeframe : option string) : M unit :=
  if str_truthy timeframe
  then cleanup_old_events self rule_id (default EmptyString timeframe)
  else ret tt.

(** [AggregationEvaluator.evaluate]; [self] is the evaluator's [state]. *)
Definition evaluate (self : store_ref) (rule_id func_name : string)
    (field group_by : option string) (comparison_op : string) (threshold : Z)
    (timeframe : option string) (current_event : option Event) : M bool :=
  expire self rule_id timeframe ;;
  let! events := get_events self rule_id in
  match events with
  | [] => ret false
  | _ =>
      if str_truthy group_by then
        let group_by := default EmptyString group_by in
        let! groups := lift (group_events group_by events []) in
        if event_truthy current_event then
          let current_group := event_get (default ∅ current_event) group_by in
          let! found := lift (groups_lookup groups current_group) in
          match found with
          | Some group_events =>
              let! result := lift (_compute_aggregation func_name field group_events) in
              ret (_compare result comparison_op threshold)
          | None => ret false
          end
        else
          lift (any_group func_name field comparison_op threshold groups)
      else
        let! result := lift (_compute_aggregation func_name field events) in
        ret (_compare result comparison_op threshold)
  end.

(** ** Vocabulary for the properties of the evaluator *)

(** The group key of an event, and whether the keys of all the events can
    be hashed *)
Definition group_key (group_by : string) (event : Event) : value :=
  event_get event group_by.

Definition keys_hashable (group_by : string) (events : list Event) : bool :=
  forallb (fun event => hashable (group_key group_by event)) events.

(** The dict [groups] that the loop builds from events with hashable keys *)
Definition grouped (group_by : string) (events : list Event) : Groups :=
  fold_left (fun groups event => groups_insert groups (group_key group_by event) event)
            events [].

(** The events whose [group_by] field has the value [key], in order; an
    event without the field has the key [None]. *)
Definition partition_of (group_by : string) (key : value) (events : list Event)
    : list Event :=
  List.filter (fun event => bool_decide (event_get event group_by = key)) events.

(** The value an event contributes to [sum], [min], [max] and [avg], if any *)
Definition contribution (field : string) (event : Event) : option pyfloat :=
  match event_get event field with
  | VNone => None
  | val => match py_float val with Ok x => Some x | Raise _ => None end
  end.

(** [float(val)] leaves the loop of [_compute_aggregation] with an
    exception that the loop does not catch. *)
Definition overflows (field : string) (event : Event) : Prop :=
  event_get event field ≠ VNone /\ py_float (event_get event field) = Raise OverflowError.

(** The aggregate of a non-empty list of values *)
Definition reduce (func_name : string) (values : list pyfloat) : pyfloat :=
  if decide (func_name = "sum") then fsum values
  else if decide (func_name = "min") then fmin values
  else if decide (func_name = "max") then fmax values
  else if decide (func_name = "avg") then fdiv_len (fsum values) (length values)
  else fzero.

(** The verdict of the evaluator on one set of selected events: the
    aggregate, compared with the threshold. *)
Definition compared (func_name : string) (field : option string) (comparison_op : string)
    (threshold : Z) (selected : list Event) : outcome bool :=
  match _compute_aggregation func_name field selected with
  | Ok result => Ok (_compare result comparison_op threshold)
  | Raise e => Raise e
  end.

(** ** The collaborators of the condition compiler *)

(** Modelled from the spec: the rule object and the two matchers of
    [sigma_scan.py] are not part of the sources at hand.  A rule exposes
    its [id] and [get_timeframe()]; [match_search_id(rule, event, name)] and
    [analyze_x_of(rule, event, count, selector)] return a boolean and touch
    no aggregation store (section 6 of the specification). *)
Class Collaborators := {
  Signature : Type;
  sig_id : Signature -> string;
  get_timeframe : Signature -> option string;
  match_search_id : Signature -> Event -> string -> bool;
  analyze_x_of : Signature -> Event -> option Z -> option string -> bool;
}.

Context `{CO : Collaborators}.

(** ** [class FactoryTransformer]

    A compiled condition is a closure
    [(signature, event, aggregation_state=None) -> bool]. *)

Definition pred : Type := Signature -> Event -> option store_ref -> M bool.

(** [if aggregation_state is None: aggregation_state = get_aggregation_state()] *)
Definition resolve (aggregation_state : option store_ref) : store_ref :=
  default GlobalStore aggregation_state.

(** [search_id] *)
Definition search_id (name : string) : pred :=
  fun signature event _ => ret (match_search_id signature event name).

(** [atom]: every argument is callable, the first is returned *)
Definition atom (arg : pred) : pred := arg.

(** [not_rule]; [negate] is [false] when the argument is [None] *)
Definition not_rule (negate : bool) (value : pred) : pred :=
  if negate
  then fun signature event aggregation_state =>
         let! r := value signature event aggregation_state in ret (negb r)
  else value.

(** [and_rule] *)
Fixpoint _and_operation (args : list pred) : pred :=
  fun signature event aggregation_state =>
    match args with
    | [] => ret true
    | component :: rest =>
        let! r := component signature event aggregation_state in
        if negb r then ret false
        else _and_operation rest signature event aggregation_state
    end.

Definition and_rule (args : list pred) : pred :=
  match args with
  | [x] => x
  | _ => _and_operation args
  end.

(** [or_rule] *)
Fixpoint _or_operation (args : list pred) : pred :=
  fun signature event aggregation_state =>
    match args with
    | [] => ret false
    | component :: rest =>
        let! r := component signature event aggregation_state in
        if r then ret true
        else _or_operation rest signature event aggregation_state
    end.

Definition or_rule (args : list pred) : pred :=
  match args with
  | [x] => x
  | _ => _or_operation args
  end.

(** [pipe_rule]: [args] is [base :: rest].  The base is a closure (the
    result of [or_rule]), so [callable(base_condition)] holds; the second
    argument is a closure or [None]. *)
Definition _pipe_with_aggregation (base_condition : pred) (aggregation : option pred) : pred :=
  fun signature event aggregation_state =>
    let! base_result := base_condition signature event aggregation_state in
    if negb base_result then ret false
    else
      let aggregation_state := resolve aggregation_state in
      add_event aggregation_state (sig_id signature) event "UtcTime" ;;
      match aggregation with
      | Some aggregation => aggregation signature event (Some aggregation_state)
      | None => ret true
      end.

Definition pipe_rule (base : pred) (rest : list (option pred)) : pred :=
  match rest with
  | [] => base                              (* len(args) == 1 *)
  | aggregation :: _ => _pipe_with_aggregation base aggregation
  end.

(** [x_of]; [count] is [None] for [all] *)
Definition x_of (count : option Z) (pattern : string) : pred :=
  let selector := if decide (pattern = "them") then None else Some pattern in
  fun signature event _ => ret (analyze_x_of signature event count selector).

(** [aggregation_function]: the token's text, in lower case *)
Definition aggregation_function (f : agg_function) : string :=
  match f with
  | COUNT => "count" | MIN => "min" | MAX => "max" | AVG => "avg" | SUM => "sum"
  end.

(** [comparison_op] *)
Definition comparison_op (o : cmp_op) : string :=
  match o with GT => ">" | LT => "<" | EQ => "=" end.

(** [aggregation_expression] on the five arguments of a regular
    aggregation.  The name and the operator are non-empty strings; a
    threshold of [0] is falsy and is replaced by the default [1]. *)
Definition aggregation_expression (agg_func : string) (agg_field group_by : option string)
    (comparison_op : string) (value : Z) : pred :=
  let threshold := if value =? 0 then 1 else value in
  fun signature event aggregation_state =>
    let aggregation_state := resolve aggregation_state in
    let timeframe := get_timeframe signature in
    evaluate aggregation_state (sig_id signature) agg_func agg_field group_by
             comparison_op threshold timeframe (Some event).

(** [near_aggregation] *)
Definition near_aggregation (condition : pred) : pred :=
  fun signature event aggregation_state => condition signature event aggregation_state.

(** ** The transformation of parse trees

    [transform] calls the callbacks bottom-up with the
    arguments Lark passes when [maybe_placeholders=True]: an optional item
    [[...]] that is absent is passed as one [None].  So [not_rule] always
    gets two arguments, and so does [pipe_rule]. *)

Fixpoint transform (t : tree) : pred :=
  match t with
  | TSearchId name => search_id name
  | TXOf count pattern => x_of count pattern
  | TAtom t => atom (transform t)
  | TNot negate t => not_rule negate (transform t)
  | TAnd ts => and_rule (map transform ts)
  | TOr ts => or_rule (map transform ts)
  | TPipe base aggregation =>
      pipe_rule (transform base)
        [match aggregation with
         | None => None
         | Some (AggCall f field group_by op value) =>
             Some (aggregation_expression (aggregation_function f) field group_by
                     (comparison_op op) value)
         | Some (AggNear condition) => Some (near_aggregation (transform condition))
         end]
  end.

(** The closure compiled from an aggregation clause *)
Definition aggregation_pred (aggregation : aggregation_clause tree) : pred :=
  match aggregation with
  | AggCall f field group_by op value =>
      aggregation_expression (aggregation_function f) field group_by (comparison_op op) value
  | AggNear condition => near_aggregation (transform condition)
  end.

(** A predicate that returns a boolean fixed by the rule and the event and
    leaves the world as it is, whatever store it is given *)
Definition store_free (p : pred) : Prop :=
  forall signature event, exists b,
    forall aggregation_state w, p signature event aggregation_state w = (Ok b, w).

(** A predicate whose verdict is a boolean fixed by the rule and the event,
    whatever store it is given and whatever the stores hold *)
Definition store_blind (p : pred) : Prop :=
  forall signature event, exists b,
    forall aggregation_state w, (p signature event aggregation_state w).1 = Ok b.

(** ** Vocabulary for further properties *)

(** The timestamp [add_event] takes from the event itself; [None] when it
    falls back on the clock (field absent or falsy, or a string that
    [strptime] rejects). *)
Definition own_timestamp (event : Event) (timestamp_field : string) : option value :=
  let ts := event_get event timestamp_field in
  if truthy ts then
    match ts with
    | VStr s => option_map VDatetime (strptime s)
    | _ => Some ts
    end
  else None.

(** The store object that a predicate called with [aggregation_state]
    does not work on *)
Definition other_store (self : store_ref) : store_ref :=
  match self with GlobalStore => CallerStore | CallerStore => GlobalStore end.

(** The truth value of a condition read as a formula: search identifiers
    and quantified selectors are the atoms, a [pipe_rule] node has the
    value of its base. *)
Fixpoint holds (signature : Signature) (event : Event) (t : tree) : bool :=
  match t with
  | TSearchId name => match_search_id signature event name
  | TXOf count pattern =>
      analyze_x_of signature event count
        (if decide (pattern = "them") then None else Some pattern)
  | TAtom t => holds signature event t
  | TNot negate t =>
      if negate then negb (holds signature event t) else holds signature event t
  | TAnd ts => forallb (holds signature event) ts
  | TOr ts => existsb (holds signature event) ts
  | TPipe base _ => holds signature event base
  end.

End Engine.

Abbreviation Event := (gmap string value).
Abbreviation Groups := (list (value * list Event)).

(** ** A runtime to compute with: CPython on IEEE binary64

    Used to run the code on concrete inputs.
    - Floats are the primitive binary64 numbers.  [float(n)] rounds to
      nearest-even and raises OverflowError beyond the largest double;
      a float is compared with an int exactly, as CPython does;
      [sum] adds from left to right starting at 0.
    - Rule timeframes are strings of code points below 256; [int] accepts
      an optional sign and decimal digits with single underscores between
      them (CPython's optional limit on the number of digits is off).
    - The [str] values of event fields are restricted to the strings
      ['x' * n]: [float] and [strptime] reject all of them. *)

Module Py64.

Import Floats.

Definition float_of_Z (n : Z) : PrimFloat.float :=
  SF2Prim (SpecFloat.binary_normalize prec emax n 0 false).

Definition float64_of_int (n : Z) : option PrimFloat.float :=
  let x := float_of_Z n in
  if PrimFloat.is_infinity x then None else Some x.

Definition sum64 (values : list PrimFloat.float) : PrimFloat.float :=
  fold_left PrimFloat.add values PrimFloat.zero.

Definition min64 (values : list PrimFloat.float) : PrimFloat.float :=
  match values with
  | [] => PrimFloat.zero
  | x :: rest => fold_left (fun m y => if PrimFloat.ltb y m then y else m) rest x
  end.

Definition max64 (values : list PrimFloat.float) : PrimFloat.float :=
  match values with
  | [] => PrimFloat.zero
  | x :: rest => fold_left (fun m y => if PrimFloat.ltb m y then y else m) rest x
  end.

(** Exact comparison of a float with an integer; [None] for NaN. *)
Definition compare_float_int (x : PrimFloat.float) (t : Z) : option comparison :=
  match Prim2SF x with
  | SpecFloat.S754_nan => None
  | SpecFloat.S754_infinity s => Some (if s then Lt else Gt)
  | SpecFloat.S754_zero _ => Some (0 ?= t)
  | SpecFloat.S754_finite s m e =>
      let n := if s then Z.neg m else Z.pos m in
      Some (if 0 <=? e then (n * 2 ^ e ?= t) else (n ?= t * 2 ^ (- e)))
  end.

Definition is_white (c : ascii) : bool :=
  let n := nat_of_ascii c in
  ((9 <=? n) && (n <=? 13) || (28 <=? n) && (n <=? 32) || (n =? 133) || (n =? 160))%nat.

Fixpoint lstrip (s : string) : string :=
  match s with
  | String c s' => if is_white c then lstrip s' else s
  | EmptyString => EmptyString
  end.

Fixpoint rstrip (s : string) : string :=
  match s with
  | String c s' =>
      match rstrip s' with
      | EmptyString => if is_white c then EmptyString else String c EmptyString
      | r => String c r
      end
  | EmptyString => EmptyString
  end.

Definition strip (s : string) : string := rstrip (lstrip s).

Definition digit_value (c : ascii) : option Z :=
  let n := nat_of_ascii c in
  if ((48 <=? n) && (n <=? 57))%nat then Some (Z.of_nat n - 48) else None.

Fixpoint digits (s : string) (acc : Z) (after_digit : bool) : option Z :=
  match s with
  | EmptyString => if after_digit then Some acc else None
  | String c s' =>
      match digit_value c with
      | Some d => digits s' (10 * acc + d) true
      | None =>
          if Ascii.eqb c "_" then (if after_digit then digits s' acc false else None)
          else None
      end
  end.

Definition int (s : string) : option Z :=
  match strip s with
  | String "-" s' => option_map Z.opp (digits s' 0 false)
  | String "+" s' => digits s' 0 false
  | s' => digits s' 0 false
  end.

#[export] Instance py64 : PyRuntime := {|
  text := nat;
  text_truthy := fun n => negb (Nat.eqb n 0);
  strptime := fun _ => None;
  pyfloat := PrimFloat.float;
  float_of_text := fun _ => None;
  float_of_int := float64_of_int;
  float_of_len := fun n => float_of_Z (Z.of_nat n);
  fzero := PrimFloat.zero;
  fsum := sum64;
  fmin := min64;
  fmax := max64;
  fdiv_len := fun x n => PrimFloat.div x (float_of_Z (Z.of_nat n));
  fgt := fun x t => bool_decide (compare_float_int x t = Some Gt);
  flt := fun x t => bool_decide (compare_float_int x t = Some Lt);
  feq := fun x t => bool_decide (compare_float_int x t = Some Eq);
  py_strip := strip;
  py_int := int;
|}.

End Py64.


(** ** A concrete setting to run the compiled conditions in

    Rules are an identifier and a timeframe; a search identifier matches
    an event that carries a field of that name; the clock stands still at
    2024-01-01 00:00:00. *)

Module Demo.

Import Py64.

Record rule := mkRule { rule_id : string; rule_timeframe : option string }.

#[export] Instance demo_collaborators : Collaborators := {|
  Signature := rule;
  sig_id := rule_id;
  get_timeframe := rule_timeframe;
  match_search_id := fun _ event name => bool_decide (is_Some (event !! name));
  analyze_x_of := fun _ _ _ _ => false;
|}.

(** 2024-01-01 is day 738886 of the proleptic Gregorian calendar. *)
Definition t2024 : Z := 738885 * us_per_day.

#[export] Instance frozen_clock : Clock := fun _ => t2024.

Definition empty_world : World := mkWorld new_state new_state 0.

(** The parse tree of the condition text [name]. *)
Definition sel (name : string) : tree :=
  TOr [TAnd [TNot false (TAtom (TSearchId name))]].

(** The parse tree of [selection | f(field) by group op value]. *)
Definition piped (f : agg_function) (field group_by : option string) (op : cmp_op) (v : Z) : tree :=
  TPipe (sel "selection") (Some (AggCall f field group_by op v)).

(** The verdicts of a compiled condition on a sequence of events, one
    [check_event] after the other on the singleton store. *)
Fixpoint verdicts (r : rule) (p : pred) (evs : list (gmap string value)) (w : World)
    : list (outcome bool) :=
  match evs with
  | [] => []
  | ev :: rest => let '(b, w') := p r ev (Some GlobalStore) w in b :: verdicts r p rest w'
  end.

Definition r1 : rule := mkRule "rule-1" None.

Definition rbad : rule := mkRule "rule-1" (Some "xs").

(** The [str] value ['x' * n] *)
Definition xs (n : nat) : value := @VStr py64 n.

Definition ev_with (field : string) (v : value) : gmap string value :=
  <[field := v]> {["selection" := VInt 1]}.

(** An event stamped one minute before the clock, and one without a
    timestamp, which is stamped with the clock *)
Definition ev_old : gmap string value :=
  ev_with "UtcTime" (VDatetime (t2024 - 60 * us_per_second)).
Definition ev_new : gmap string value := {["selection" := VInt 1]}.

(** The singleton store after the events were recorded for [rule-1] *)
Definition recorded (evs : list (gmap string value)) : World :=
  fold_left (fun w ev => (add_event GlobalStore "rule-1" ev "UtcTime" w).2) evs empty_world.

Definition w_old : World := recorded [ev_old].
Definition w_two : World := recorded [ev_old; ev_new].

(** Events from the address [x] and from the address [xx] *)
Definition ev_ip1 : gmap string value := ev_with "src_ip" (xs 1).
Definition ev_ip2 : gmap string value := ev_with "src_ip" (xs 2).

(** An event whose [src_ip] field is a list of two addresses, and an event
    whose [UtcTime] field is the [int] 5 *)
Definition ev_ips : gmap string value := ev_with "src_ip" (VList [xs 1; xs 2]).

(** The parse tree of [(selection | count() > 5)], as a base condition *)
Definition nested : tree :=
  TOr [TAnd [TNot false (TAtom (piped COUNT None None GT 5))]].

End Demo.


(** Closed goals are settled by running the code. *)
Ltac run := vm_compute; first [reflexivity | discriminate | repeat constructor].

(** * Properties *)

Section Properties.

Context `{RT : PyRuntime} `{CK : Clock} {CO : Collaborators}.

(** ** The default dictionaries *)

Lemma dd_read_insert_eq {A} (d : gmap string (list A)) k l :
  dd_read (<[k := l]> d) k = l.
Proof. unfold dd_read. by rewrite lookup_insert_eq. Qed.

Lemma dd_read_insert_ne {A} (d : gmap string (list A)) k k' l :
  k ≠ k' -> dd_read (<[k := l]> d) k' = dd_read d k'.
Proof. intros. unfold dd_read. by rewrite lookup_insert_ne. Qed.

Lemma dd_read_touch {A} (d : gmap string (list A)) k k' :
  dd_read (dd_touch d k) k' = dd_read d k'.
Proof.
  unfold dd_touch. destruct (decide (k = k')) as [->|].
  - by rewrite dd_read_insert_eq.
  - by rewrite dd_read_insert_ne.
Qed.

Lemma dd_read_append_eq {A} (d : gmap string (list A)) k x :
  dd_read (dd_append d k x) k = dd_read d k ++ [x].
Proof. unfold dd_append. by rewrite dd_read_insert_eq. Qed.

Lemma dd_read_append_ne {A} (d : gmap string (list A)) k k' x :
  k ≠ k' -> dd_read (dd_append d k x) k' = dd_read d k'.
Proof. intros. unfold dd_append. by rewrite dd_read_insert_ne. Qed.

Lemma dd_read_delete_eq {A} (d : gmap string (list A)) k :
  dd_read (delete k d) k = [].
Proof. unfold dd_read. by rewrite lookup_delete_eq. Qed.

Lemma dd_read_delete_ne {A} (d : gmap string (list A)) k k' :
  k ≠ k' -> dd_read (delete k d) k' = dd_read d k'.
Proof. intros. unfold dd_read. by rewrite lookup_delete_ne. Qed.

Lemma dd_touch_touch {A} (d : gmap string (list A)) k :
  dd_touch (dd_touch d k) k = dd_touch d k.
Proof. unfold dd_touch. by rewrite dd_read_insert_eq, insert_insert_eq. Qed.

(** ** The world *)

Lemma state_of_set_state self st w : state_of self (set_state self st w) = st.
Proof. by destruct self. Qed.

Lemma state_of_set_state_ne self self' st w :
  self ≠ self' -> state_of self' (set_state self st w) = state_of self' w.
Proof. by destruct self, self'. Qed.

Lemma state_of_tick self w : state_of self (tick w) = state_of self w.
Proof. by destruct self. Qed.

Lemma set_state_set_state self st st' w :
  set_state self st (set_state self st' w) = set_state self st w.
Proof. by destruct self. Qed.

Lemma now_calls_set_state self st w : now_calls (set_state self st w) = now_calls w.
Proof. by destruct self. Qed.

(** ** [add_event] *)

(** [add_event] never raises; it appends the event and one timestamp under
    the rule, and reads the clock at most once. *)
Lemma add_event_spec self rule_id event timestamp_field w :
  exists ts w0,
    (w0 = w \/ w0 = tick w) /\
    add_event self rule_id event timestamp_field w =
      (Ok tt, set_state self
                (timestamps_append rule_id ts (events_append rule_id event (state_of self w)))
                w0).
Proof.
  unfold add_event, bind, update_state, now.
  assert (Hs : forall f g w1,
             set_state self (f (state_of self (set_state self (g (state_of self w)) w1)))
                       (set_state self (g (state_of self w)) w1)
             = set_state self (f (g (state_of self w))) w1).
  { intros. by rewrite state_of_set_state, set_state_set_state. }
  destruct (truthy (event_get event timestamp_field)) eqn:Ht.
  - destruct (event_get event timestamp_field) as [|n|s|t|items|items] eqn:Hg; simpl.
    + eexists _, w. split; [by left|]. by rewrite Hs.
    + eexists _, w. split; [by left|]. by rewrite Hs.
    + destruct (strptime s); simpl.
      * eexists _, w. split; [by left|]. by rewrite Hs.
      * eexists _, (tick w). split; [by right|]. f_equal.
        destruct self; reflexivity.
    + eexists _, w. split; [by left|]. by rewrite Hs.
    + eexists _, w. split; [by left|]. by rewrite Hs.
    + eexists _, w. split; [by left|]. by rewrite Hs.
  - simpl. eexists _, (tick w). split; [by right|]. f_equal.
    destruct self; reflexivity.
Qed.

(** ** [cleanup_old_events] *)

Lemma recent_datetime cutoff (event : Event) t :
  recent cutoff (event, VDatetime t) = (cutoff <=? t).
Proof. reflexivity. Qed.

Lemma keep_recent_ok cutoff pairs new_events new_timestamps kept :
  keep_recent cutoff pairs new_events new_timestamps = Ok kept ->
  kept = (new_events ++ (List.filter (recent cutoff) pairs).*1,
          new_timestamps ++ (List.filter (recent cutoff) pairs).*2)
  /\ Forall (fun entry => is_datetime entry.2 = true) pairs.
Proof.
  revert new_events new_timestamps.
  induction pairs as [|[event ts] rest IH]; intros ne nt H.
  - simpl in H. inversion H. simpl. by rewrite !app_nil_r.
  - destruct ts as [|n|s|t|items|items]; simpl in H; try discriminate.
    cbn [List.filter]. rewrite recent_datetime.
    destruct (cutoff <=? t); apply IH in H as [-> HF]; split;
      try (constructor; done); by rewrite ?fmap_cons, <- ?app_assoc.
Qed.

Lemma keep_recent_total cutoff pairs new_events new_timestamps :
  Forall (fun entry => is_datetime entry.2 = true) pairs ->
  keep_recent cutoff pairs new_events new_timestamps =
    Ok (new_events ++ (List.filter (recent cutoff) pairs).*1,
        new_timestamps ++ (List.filter (recent cutoff) pairs).*2).
Proof.
  intros HF. revert new_events new_timestamps.
  induction HF as [|[event ts] rest Hd HF IH]; intros ne nt.
  - simpl. by rewrite !app_nil_r.
  - destruct ts as [|n|s|t|items|items]; simpl in Hd; try discriminate.
    cbn [List.filter keep_recent ts_ge]. rewrite recent_datetime.
    destruct (cutoff <=? t); rewrite IH; by rewrite ?fmap_cons, <- ?app_assoc.
Qed.

Lemma filter_recent_sublist cutoff (pairs : list (Event * value)) :
  sublist (List.filter (recent cutoff) pairs) pairs.
Proof.
  induction pairs as [|entry rest IH]; simpl.
  - constructor.
  - destruct (recent cutoff entry); by constructor.
Qed.

Lemma filter_recent_idem cutoff (pairs : list (Event * value)) :
  List.filter (recent cutoff) (List.filter (recent cutoff) pairs)
  = List.filter (recent cutoff) pairs.
Proof.
  induction pairs as [|entry rest IH]; simpl; [done|].
  destruct (recent cutoff entry) eqn:E; simpl; rewrite ?E, IH; done.
Qed.

Lemma filter_recent_datetime cutoff (pairs : list (Event * value)) :
  Forall (fun entry => is_datetime entry.2 = true) (List.filter (recent cutoff) pairs).
Proof.
  induction pairs as [|[event ts] rest IH]; simpl; [constructor|].
  destruct (recent cutoff (event, ts)) eqn:E; [|done].
  constructor; [|done]. unfold recent in E; simpl in *. by destruct ts.
Qed.

Lemma state_of_set_state_tick self st w :
  state_of self (set_state self st (tick w)) = st.
Proof. by destruct self. Qed.

Lemma cleanup_old_events_run self rule_id timeframe w :
  cleanup_run self rule_id timeframe w (cleanup_old_events self rule_id timeframe w).
Proof.
  unfold cleanup_old_events, bind, read_state, ret, lift, now, update_state.
  destruct (decide (timeframe = EmptyString)) as [Htf|Htf].
  { apply cleanup_noop. by left. }
  destruct (decide (timestamps (state_of self w) !! rule_id = None)) as [Hts|Hts].
  { apply cleanup_noop. right. by left. }
  destruct (_parse_timeframe timeframe) as [[time_limit|]|e] eqn:Hp.
  - fold (tick w).
    destruct (datetime_sub (wall_clock (now_calls w)) time_limit) as [cutoff|e] eqn:Hc.
    + rewrite state_of_tick, state_of_set_state_tick.
      assert (Hh : zip (dd_read (events (events_touch rule_id (state_of self w))) rule_id)
                       (dd_read (timestamps (events_touch rule_id (state_of self w))) rule_id)
                   = history (state_of self w) rule_id).
      { unfold history. simpl. by rewrite dd_read_touch. }
      rewrite Hh.
      destruct (keep_recent cutoff (history (state_of self w) rule_id) [] []) as [kept|e] eqn:Hk.
      * apply keep_recent_ok in Hk as [-> HF].
        rewrite set_state_set_state. simpl.
        unfold dd_touch. rewrite insert_insert_eq.
        by eapply cleanup_done.
      * by eapply cleanup_bad_timestamp.
    + by eapply cleanup_bad_cutoff.
  - apply cleanup_noop. right. by right.
  - by apply cleanup_bad_timeframe.
Qed.

Lemma cleanup_noop_eq self rule_id timeframe w :
  timeframe = EmptyString \/ timestamps (state_of self w) !! rule_id = None
    \/ _parse_timeframe timeframe = Ok None ->
  cleanup_old_events self rule_id timeframe w = (Ok tt, w).
Proof.
  intros H. destruct (cleanup_old_events_run self rule_id timeframe w); try done;
    destruct H as [H|[H|H]]; congruence.
Qed.

Lemma cleanup_done_eq self rule_id timeframe w time_limit cutoff :
  timestamps (state_of self w) !! rule_id ≠ None ->
  _parse_timeframe timeframe = Ok (Some time_limit) ->
  datetime_sub (wall_clock (now_calls w)) time_limit = Ok cutoff ->
  Forall (fun entry => is_datetime entry.2 = true) (history (state_of self w) rule_id) ->
  cleanup_old_events self rule_id timeframe w =
    (Ok tt, set_state self (cleaned cutoff rule_id (state_of self w)) (tick w)).
Proof.
  intros Hts Hp Hc HF.
  destruct (cleanup_old_events_run self rule_id timeframe w)
    as [H|e ? ? H|d e ? ? H1 H2|d c e ? ? H1 H2 H3|d c ? ? H1 H2 H3].
  - destruct H as [->|[H|H]]; [|congruence..].
    unfold _parse_timeframe in Hp. by rewrite decide_True in Hp.
  - congruence.
  - congruence.
  - rewrite Hp in H1. injection H1 as <-. rewrite Hc in H2. injection H2 as <-.
    by rewrite (keep_recent_total _ _ _ _ HF) in H3.
  - rewrite Hp in H1. injection H1 as <-. rewrite Hc in H2. by injection H2 as <-.
Qed.

Lemma get_events_eq self rule_id w :
  get_events self rule_id w =
    (Ok (dd_read (events (state_of self w)) rule_id),
     set_state self (events_touch rule_id (state_of self w)) w).
Proof.
  unfold get_events, bind, update_state, read_state, ret.
  rewrite state_of_set_state. simpl. by rewrite dd_read_touch.
Qed.

(** ** The invariant of the store *)

Lemma zip_snoc {A B} (l : list A) (k : list B) a b :
  length l = length k -> zip (l ++ [a]) (k ++ [b]) = zip l k ++ [(a, b)].
Proof. intros. by rewrite zip_with_app. Qed.

Lemma store_inv_set_state self st w :
  coindexed st -> store_inv w -> store_inv (set_state self st w).
Proof.
  intros Hst Hw self'. destruct (decide (self = self')) as [<-|Hne].
  - by rewrite state_of_set_state.
  - rewrite state_of_set_state_ne by done. apply Hw.
Qed.

Lemma store_inv_tick w : store_inv w -> store_inv (tick w).
Proof. intros Hw self. rewrite state_of_tick. apply Hw. Qed.

Lemma history_events_touch rule_id st rule_id' :
  history (events_touch rule_id st) rule_id' = history st rule_id'.
Proof. unfold history. simpl. by rewrite dd_read_touch. Qed.

Lemma coindexed_events_touch rule_id st : coindexed st -> coindexed (events_touch rule_id st).
Proof. intros H r. simpl. rewrite dd_read_touch. apply H. Qed.

Lemma history_cleaned_eq cutoff rule_id st :
  history (cleaned cutoff rule_id st) rule_id
  = List.filter (recent cutoff) (history st rule_id).
Proof. unfold history at 1. simpl. by rewrite !dd_read_insert_eq, zip_fst_snd. Qed.

Lemma history_cleaned_ne cutoff rule_id st rule_id' :
  rule_id ≠ rule_id' -> history (cleaned cutoff rule_id st) rule_id' = history st rule_id'.
Proof. intros. unfold history. simpl. by rewrite !dd_read_insert_ne. Qed.

Lemma coindexed_cleaned cutoff rule_id st : coindexed st -> coindexed (cleaned cutoff rule_id st).
Proof.
  intros H r. simpl. destruct (decide (rule_id = r)) as [<-|Hne].
  - by rewrite !dd_read_insert_eq, !length_fmap.
  - rewrite !dd_read_insert_ne by done. apply H.
Qed.

Lemma history_appended rule_id event ts st :
  coindexed st ->
  history (timestamps_append rule_id ts (events_append rule_id event st)) rule_id
  = history st rule_id ++ [(event, ts)].
Proof.
  intros H. unfold history. simpl. rewrite !dd_read_append_eq. apply zip_snoc, H.
Qed.

Lemma history_appended_ne rule_id event ts st rule_id' :
  rule_id ≠ rule_id' ->
  history (timestamps_append rule_id ts (events_append rule_id event st)) rule_id'
  = history st rule_id'.
Proof. intros. unfold history. simpl. by rewrite !dd_read_append_ne. Qed.

Lemma coindexed_appended rule_id event ts st :
  coindexed st -> coindexed (timestamps_append rule_id ts (events_append rule_id event st)).
Proof.
  intros H r. simpl. destruct (decide (rule_id = r)) as [<-|Hne].
  - rewrite !dd_read_append_eq, !length_app. simpl. by rewrite H.
  - rewrite !dd_read_append_ne by done. apply H.
Qed.

Lemma coindexed_new_state : coindexed new_state.
Proof. intros r. reflexivity. Qed.

(** C5. For every rule identifier (of either store object) the event
    sequence and the timestamp sequence have the same length; this holds
    in the initial world and after every store operation.  The sequences
    are co-indexed and keep insertion order: [add_event] appends one pair
    at the end of the rule's history, [cleanup_old_events] leaves a
    subsequence of it, [get_events] returns the event sequence and changes
    no history, [clear_rule] empties the rule's history, and none of them
    touches the history of another rule; a reset gives the empty store. *)
Theorem store_sequences_coindexed :
  (forall n, store_inv (mkWorld new_state new_state n)) /\
  (forall w, store_inv w ->
     (forall self rule_id event timestamp_field,
        let r := add_event self rule_id event timestamp_field w in
        r.1 = Ok tt /\ store_inv r.2 /\
        (exists ts, history (state_of self r.2) rule_id
                    = history (state_of self w) rule_id ++ [(event, ts)]) /\
        (forall rule_id', rule_id ≠ rule_id' ->
           history (state_of self r.2) rule_id' = history (state_of self w) rule_id')) /\
     (forall self rule_id timeframe,
        let r := cleanup_old_events self rule_id timeframe w in
        store_inv r.2 /\
        sublist (history (state_of self r.2) rule_id) (history (state_of self w) rule_id) /\
        (forall rule_id', rule_id ≠ rule_id' ->
           history (state_of self r.2) rule_id' = history (state_of self w) rule_id')) /\
     (forall self rule_id,
        let r := get_events self rule_id w in
        r.1 = Ok (dd_read (events (state_of self w)) rule_id) /\ store_inv r.2 /\
        (forall rule_id', history (state_of self r.2) rule_id'
                          = history (state_of self w) rule_id')) /\
     (forall self rule_id,
        let r := clear_rule self rule_id w in
        r.1 = Ok tt /\ store_inv r.2 /\
        history (state_of self r.2) rule_id = [] /\
        (forall rule_id', rule_id ≠ rule_id' ->
           history (state_of self r.2) rule_id' = history (state_of self w) rule_id')) /\
     (let r := reset_aggregation_state w in
      r.1 = Ok tt /\ store_inv r.2 /\ state_of GlobalStore r.2 = new_state)).
Proof.
  split.
  { intros n []; apply coindexed_new_state. }
  intros w Hw. repeat split.
  - by destruct (add_event_spec self rule_id event timestamp_field w) as (ts & w0 & _ & ->).
  - destruct (add_event_spec self rule_id event timestamp_field w) as (ts & w0 & Hw0 & ->).
    simpl. apply store_inv_set_state.
    + apply coindexed_appended, Hw.
    + destruct Hw0 as [->| ->]; auto using store_inv_tick.
  - destruct (add_event_spec self rule_id event timestamp_field w) as (ts & w0 & Hw0 & ->).
    exists ts. simpl. rewrite state_of_set_state. apply history_appended, Hw.
  - intros rule_id' Hne.
    destruct (add_event_spec self rule_id event timestamp_field w) as (ts & w0 & Hw0 & ->).
    simpl. rewrite state_of_set_state. by apply history_appended_ne.
  - destruct (cleanup_old_events_run self rule_id timeframe w); simpl;
      auto using store_inv_tick, store_inv_set_state, coindexed_events_touch, coindexed_cleaned.
  - destruct (cleanup_old_events_run self rule_id timeframe w); simpl;
      rewrite ?state_of_tick, ?state_of_set_state, ?history_events_touch, ?history_cleaned_eq;
      auto using filter_recent_sublist.
  - intros rule_id' Hne.
    destruct (cleanup_old_events_run self rule_id timeframe w); simpl;
      rewrite ?state_of_tick, ?state_of_set_state, ?history_events_touch; auto.
    by apply history_cleaned_ne.
  - by rewrite get_events_eq.
  - rewrite get_events_eq. simpl.
    apply store_inv_set_state; auto using coindexed_events_touch.
  - intros rule_id'. rewrite get_events_eq. simpl.
    by rewrite state_of_set_state, history_events_touch.
  - unfold clear_rule, update_state. simpl. apply store_inv_set_state; [|done].
    intros r. simpl. destruct (decide (rule_id = r)) as [<-|Hne].
    + by rewrite !dd_read_delete_eq.
    + rewrite !dd_read_delete_ne by done. apply Hw.
  - unfold clear_rule, update_state. simpl. rewrite state_of_set_state.
    unfold history. simpl. by rewrite !dd_read_delete_eq.
  - intros rule_id' Hne. unfold clear_rule, update_state. simpl.
    rewrite state_of_set_state. unfold history. simpl. by rewrite !dd_read_delete_ne.
  - intros []; simpl; [apply coindexed_new_state | apply (Hw CallerStore)].
Qed.

(** ** Expiry *)

Lemma parse_timeframe_empty : _parse_timeframe EmptyString = Ok None.
Proof. reflexivity. Qed.

Lemma cleanup_bad_timeframe_eq self rule_id timeframe w e :
  timeframe ≠ EmptyString -> timestamps (state_of self w) !! rule_id ≠ None ->
  _parse_timeframe timeframe = Raise e ->
  cleanup_old_events self rule_id timeframe w = (Raise e, w).
Proof.
  intros Htf Hts Hp.
  destruct (cleanup_old_events_run self rule_id timeframe w)
    as [H|e' ? ? H|d e' ? ? H1 H2|d c e' ? ? H1 H2 H3|d c ? ? H1 H2 H3]; try congruence.
  destruct H as [->|[H|H]]; congruence.
Qed.

Lemma cleanup_bad_cutoff_eq self rule_id timeframe w time_limit e :
  timestamps (state_of self w) !! rule_id ≠ None ->
  _parse_timeframe timeframe = Ok (Some time_limit) ->
  datetime_sub (wall_clock (now_calls w)) time_limit = Raise e ->
  cleanup_old_events self rule_id timeframe w = (Raise e, tick w).
Proof.
  intros Hts Hp Hc.
  destruct (cleanup_old_events_run self rule_id timeframe w)
    as [H|e' ? ? H|d e' ? ? H1 H2|d c e' ? ? H1 H2 H3|d c ? ? H1 H2 H3]; try congruence.
  destruct H as [->|[H|H]]; [|congruence..].
  by rewrite parse_timeframe_empty in Hp.
Qed.

Lemma cleanup_bad_timestamp_eq self rule_id timeframe w time_limit cutoff e :
  timestamps (state_of self w) !! rule_id ≠ None ->
  _parse_timeframe timeframe = Ok (Some time_limit) ->
  datetime_sub (wall_clock (now_calls w)) time_limit = Ok cutoff ->
  keep_recent cutoff (history (state_of self w) rule_id) [] [] = Raise e ->
  cleanup_old_events self rule_id timeframe w =
    (Raise e, set_state self (events_touch rule_id (state_of self w)) (tick w)).
Proof.
  intros Hts Hp Hc Hk.
  destruct (cleanup_old_events_run self rule_id timeframe w)
    as [H|e' ? ? H|d e' ? ? H1 H2|d c e' ? ? H1 H2 H3|d c ? ? H1 H2 H3]; try congruence.
  - destruct H as [->|[H|H]]; [|congruence..].
    by rewrite parse_timeframe_empty in Hp.
  - rewrite Hp in H1. injection H1 as <-. rewrite Hc in H2. injection H2 as <-.
    by rewrite (keep_recent_total _ _ _ _ H3) in Hk.
Qed.


Lemma cleaned_cleaned cutoff rule_id st :
  cleaned cutoff rule_id (cleaned cutoff rule_id st) = cleaned cutoff rule_id st.
Proof.
  unfold cleaned at 1. rewrite history_cleaned_eq, filter_recent_idem.
  unfold cleaned. simpl. by rewrite !insert_insert_eq.
Qed.

Lemma events_touch_touch rule_id st :
  events_touch rule_id (events_touch rule_id st) = events_touch rule_id st.
Proof. unfold events_touch. simpl. by rewrite dd_touch_touch. Qed.


(** C8. [cleanup_old_events] is idempotent: called a second time right
    after the first, at the same instant of the clock, it ends the same
    way and leaves every store as the first call left it. *)
Theorem cleanup_idempotent self rule_id timeframe w :
  wall_clock (S (now_calls w)) = wall_clock (now_calls w) ->
  let once := cleanup_old_events self rule_id timeframe w in
  let twice := cleanup_old_events self rule_id timeframe once.2 in
  twice.1 = once.1 /\ forall self', state_of self' twice.2 = state_of self' once.2.
Proof.
  intros Hclock once twice. subst once twice.
  assert (Hframe : forall st st' w1 w2 self',
             (forall s, self ≠ s -> state_of s w1 = state_of s w2) -> st = st' ->
             state_of self' (set_state self st w1) = state_of self' (set_state self st' w2)).
  { intros st st' w1 w2 self' Hw ->. destruct (decide (self = self')) as [<-|Hne].
    - by rewrite !state_of_set_state.
    - rewrite !state_of_set_state_ne by done. by apply Hw. }
  destruct (cleanup_old_events_run self rule_id timeframe w)
    as [H|e Htf Hts H|d e Htf Hts H1 H2|d c e Htf Hts H1 H2 H3|d c Htf Hts H1 H2 H3];
    cbn [fst snd].
  - by rewrite cleanup_noop_eq.
  - by rewrite (cleanup_bad_timeframe_eq _ _ _ _ e).
  - rewrite (cleanup_bad_cutoff_eq _ _ _ _ d e).
    + split; [done|]. intros self'. by rewrite !state_of_tick.
    + by rewrite state_of_tick.
    + done.
    + simpl. by rewrite Hclock.
  - rewrite (cleanup_bad_timestamp_eq _ _ _ _ d c e).
    + split; [done|]. intros self'. cbn [snd]. apply Hframe.
      * intros s Hs. by rewrite !state_of_tick, state_of_set_state_ne.
      * by rewrite state_of_set_state, events_touch_touch.
    + by rewrite state_of_set_state.
    + done.
    + rewrite now_calls_set_state. simpl. by rewrite Hclock.
    + by rewrite state_of_set_state, history_events_touch.
  - rewrite (cleanup_done_eq _ _ _ _ d c).
    + split; [done|]. intros self'. cbn [snd]. apply Hframe.
      * intros s Hs. by rewrite !state_of_tick, state_of_set_state_ne.
      * by rewrite state_of_set_state, cleaned_cleaned.
    + rewrite state_of_set_state. simpl. by rewrite lookup_insert_eq.
    + done.
    + rewrite now_calls_set_state. simpl. by rewrite Hclock.
    + rewrite state_of_set_state, history_cleaned_eq. apply filter_recent_datetime.
Qed.

(** ** The evaluator *)

Lemma extract_values_step field event rest values :
  extract_values field (event :: rest) values =
    match event_get event field with
    | VNone => extract_values field rest values
    | val =>
        match py_float val with
        | Ok x => extract_values field rest (values ++ [x])
        | Raise OverflowError => Raise OverflowError
        | Raise _ => extract_values field rest values
        end
    end.
Proof.
  cbn [extract_values]. destruct (event_get event field) as [|n|s|t|items|items]; try done;
    [destruct (py_float (VInt n)) as [|[]]
    |destruct (py_float (VStr s)) as [|[]]]; done.
Qed.

Lemma extract_values_spec field events values :
  match extract_values field events values with
  | Ok r => r = values ++ omap (contribution field) events
            /\ Forall (fun event => ~ overflows field event) events
  | Raise e => e = OverflowError /\ Exists (overflows field) events
  end.
Proof.
  revert values. induction events as [|event rest IH]; intros values.
  - simpl. split; [by rewrite app_nil_r | constructor].
  - rewrite extract_values_step.
    assert (Hskip : contribution field event = None -> ~ overflows field event ->
              match extract_values field rest values with
              | Ok r => r = values ++ omap (contribution field) (event :: rest)
                        /\ Forall (fun event => ~ overflows field event) (event :: rest)
              | Raise e => e = OverflowError /\ Exists (overflows field) (event :: rest)
              end).
    { intros Hc Hn. specialize (IH values). simpl. rewrite Hc.
      destruct (extract_values field rest values).
      - destruct IH as [-> HF]. split; [done|]. by constructor.
      - destruct IH as [-> HE]. split; [done|]. by apply Exists_cons_tl. }
    unfold contribution, overflows in Hskip.
    destruct (event_get event field) as [|n|s|t|items|items] eqn:Hg.
    + apply Hskip; [done|]. by intros [? _].
    + destruct (py_float (VInt n)) as [x|[]] eqn:Hf.
      * specialize (IH (values ++ [x])). simpl. unfold contribution at 1. rewrite Hg, Hf.
        destruct (extract_values field rest (values ++ [x])).
        -- destruct IH as [-> HF]. split; [by rewrite <- app_assoc|]. constructor; [|done].
           unfold overflows. rewrite Hg, Hf. by intros [_ ?].
        -- destruct IH as [-> HE]. split; [done|]. by apply Exists_cons_tl.
      * apply Hskip; [done|]. by intros [_ ?].
      * apply Hskip; [done|]. by intros [_ ?].
      * split; [done|]. apply Exists_cons_hd. unfold overflows. by rewrite Hg, Hf.
    + destruct (py_float (VStr s)) as [x|[]] eqn:Hf.
      * specialize (IH (values ++ [x])). simpl. unfold contribution at 1. rewrite Hg, Hf.
        destruct (extract_values field rest (values ++ [x])).
        -- destruct IH as [-> HF]. split; [by rewrite <- app_assoc|]. constructor; [|done].
           unfold overflows. rewrite Hg, Hf. by intros [_ ?].
        -- destruct IH as [-> HE]. split; [done|]. by apply Exists_cons_tl.
      * apply Hskip; [done|]. by intros [_ ?].
      * apply Hskip; [done|]. by intros [_ ?].
      * split; [done|]. apply Exists_cons_hd. unfold overflows. by rewrite Hg, Hf.
    + simpl in *. apply Hskip; [done|]. by intros [_ ?].
    + simpl in *. apply Hskip; [done|]. by intros [_ ?].
    + simpl in *. apply Hskip; [done|]. by intros [_ ?].
Qed.

(** X21. What [_compute_aggregation] returns: [count] is the number of events,
    whatever the field; another function without a field gives [0.0];
    with a field, the events without a value for it and those whose value
    [float] rejects with ValueError or TypeError contribute nothing, and
    the aggregate of no value at all is [0.0].  This holds as long as no
    value makes [float] raise OverflowError; such a value ends the
    computation with that exception. *)
Lemma compute_aggregation_spec func_name field events :
  (func_name = "count" ->
     _compute_aggregation func_name field events = Ok (float_of_len (length events))) /\
  (func_name ≠ "count" -> str_truthy field = false ->
     _compute_aggregation func_name field events = Ok fzero) /\
  (forall f, func_name ≠ "count" -> field = Some f -> f ≠ EmptyString ->
     Forall (fun event => ~ overflows f event) events ->
     _compute_aggregation func_name field events =
       Ok (match omap (contribution f) events with
           | [] => fzero
           | values => reduce func_name values
           end)) /\
  (forall f, func_name ≠ "count" -> field = Some f -> f ≠ EmptyString ->
     Exists (overflows f) events ->
     _compute_aggregation func_name field events = Raise OverflowError).
Proof.
  unfold _compute_aggregation. repeat split.
  - intros ->. by rewrite decide_True.
  - intros Hf Hn. rewrite decide_False by done. by rewrite Hn.
  - intros f Hf -> Hne HF. rewrite decide_False by done.
    simpl. rewrite decide_False by done. simpl.
    pose proof (extract_values_spec f events []) as H.
    destruct (extract_values f events []) as [values|e].
    + destruct H as [-> _]. simpl.
      destruct (omap (contribution f) events) as [|x l]; [done|].
      unfold reduce. by repeat case_decide.
    + destruct H as [_ HE]. apply Exists_exists in HE as (event & Hin & Ho).
      rewrite Forall_forall in HF. by destruct (HF event Hin).
  - intros f Hf -> Hne HE. rewrite decide_False by done.
    simpl. rewrite decide_False by done. simpl.
    pose proof (extract_values_spec f events []) as H.
    destruct (extract_values f events []) as [values|e].
    + destruct H as [_ HF]. apply Exists_exists in HE as (event & Hin & Ho).
      rewrite Forall_forall in HF. by destruct (HF event Hin).
    + by destruct H as [-> _].
Qed.

(** ** Grouping *)

Lemma groups_find_insert groups key event k :
  groups_find (groups_insert groups key event) k =
    if decide (key = k) then Some (default [] (groups_find groups k) ++ [event])
    else groups_find groups k.
Proof.
  induction groups as [|[k0 g] rest IH]; simpl.
  - by destruct (decide (key = k)).
  - destruct (decide (k0 = key)) as [->|Hne]; simpl.
    + destruct (decide (key = k)); done.
    + destruct (decide (k0 = k)) as [->|Hne'].
      * by rewrite decide_False by done.
      * done.
Qed.

Lemma groups_find_fold group_by events groups k :
  groups_find
    (fold_left (fun groups event => groups_insert groups (group_key group_by event) event)
               events groups) k =
    match groups_find groups k, partition_of group_by k events with
    | None, [] => None
    | o, part => Some (default [] o ++ part)
    end.
Proof.
  revert groups. induction events as [|event rest IH]; intros groups; simpl.
  - destruct (groups_find groups k); simpl; by rewrite ?app_nil_r.
  - rewrite IH, groups_find_insert. unfold partition_of, group_key. simpl.
    destruct (decide (event_get event group_by = k)) as [He|He].
    + rewrite bool_decide_eq_true_2 by done.
      destruct (groups_find groups k); simpl; by rewrite <- ?app_assoc.
    + by rewrite bool_decide_eq_false_2 by done.
Qed.

Lemma groups_find_grouped group_by events k :
  groups_find (grouped group_by events) k =
    match partition_of group_by k events with
    | [] => None
    | part => Some part
    end.
Proof. unfold grouped. by rewrite groups_find_fold. Qed.

Lemma groups_insert_keys groups key event :
  (groups_insert groups key event).*1 =
    if decide (key ∈ groups.*1) then groups.*1 else groups.*1 ++ [key].
Proof.
  induction groups as [|[k0 g] rest IH]; cbn [groups_insert fmap list_fmap fst].
  - destruct (decide (key ∈ [])) as [H|H]; [by apply elem_of_nil in H|done].
  - destruct (decide (k0 = key)) as [->|Hne]; cbn [fmap list_fmap fst].
    + destruct (decide (key ∈ key :: rest.*1)) as [H|H]; [done|].
      destruct H. apply elem_of_cons. by left.
    + rewrite IH.
      destruct (decide (key ∈ rest.*1)) as [H|H],
               (decide (key ∈ k0 :: rest.*1)) as [H'|H']; try done.
      * destruct H'. apply elem_of_cons. by right.
      * apply elem_of_cons in H' as [->|?]; done.
Qed.

Lemma groups_insert_NoDup groups key event :
  NoDup groups.*1 -> NoDup (groups_insert groups key event).*1.
Proof.
  intros H. rewrite groups_insert_keys. destruct (decide (key ∈ groups.*1)); [done|].
  apply NoDup_app. split; [done|]. split.
  - intros x Hx Hx'. apply list_elem_of_singleton in Hx'. by subst.
  - apply NoDup_singleton.
Qed.

Lemma grouped_NoDup group_by events : NoDup (grouped group_by events).*1.
Proof.
  unfold grouped.
  assert (H : NoDup ([] : Groups).*1) by constructor.
  revert H. generalize ([] : Groups).
  induction events as [|event rest IH]; intros groups H; simpl; [done|].
  apply IH. by apply groups_insert_NoDup.
Qed.

Lemma elem_of_groups groups key part :
  NoDup groups.*1 -> (key, part) ∈ groups <-> groups_find groups key = Some part.
Proof.
  induction groups as [|[k0 g] rest IH]; simpl; intros Hnd.
  - split; [by intros ?%elem_of_nil | done].
  - apply NoDup_cons in Hnd as [Hk0 Hnd]. rewrite elem_of_cons.
    destruct (decide (k0 = key)) as [->|Hne].
    + split.
      * intros [[= ->]|Hin]; [done|]. destruct Hk0.
        apply list_elem_of_fmap. by exists (key, part).
      * intros [= ->]. by left.
    + rewrite <- IH by done. split; [|by right]. intros [[= ? ?]|?]; done.
Qed.

(** The groups are the non-empty partitions of the events by key. *)
Lemma elem_of_grouped group_by events key part :
  (key, part) ∈ grouped group_by events
  <-> part = partition_of group_by key events /\ part ≠ [].
Proof.
  rewrite elem_of_groups by apply grouped_NoDup.
  rewrite groups_find_grouped.
  destruct (partition_of group_by key events) as [|x l].
  - split; [done|]. by intros [-> ?].
  - split; [by intros [= <-]|]. by intros [-> _].
Qed.

(** The loop that fills [groups] ends with TypeError at the first event
    whose key cannot be hashed, and with the groups of all events
    otherwise. *)
Lemma group_events_fold group_by events groups :
  group_events group_by events groups =
    if keys_hashable group_by events
    then Ok (fold_left (fun groups event => groups_insert groups (group_key group_by event) event)
                       events groups)
    else Raise TypeError.
Proof.
  unfold keys_hashable, group_key. revert groups.
  induction events as [|event rest IH]; intros groups; simpl; [done|].
  unfold groups_append. destruct (hashable (event_get event group_by)); simpl; [apply IH|done].
Qed.

Lemma group_events_grouped group_by events :
  keys_hashable group_by events = true ->
  group_events group_by events [] = Ok (grouped group_by events).
Proof. intros H. by rewrite group_events_fold, H. Qed.

Lemma group_events_unhashable group_by events :
  keys_hashable group_by events = false ->
  group_events group_by events [] = Raise TypeError.
Proof. intros H. by rewrite group_events_fold, H. Qed.

Lemma keys_hashable_partition group_by key events :
  keys_hashable group_by events = true ->
  partition_of group_by key events ≠ [] -> hashable key = true.
Proof.
  unfold keys_hashable, partition_of, group_key. intros H Hp.
  induction events as [|event rest IH]; [done|].
  simpl in H, Hp. apply andb_prop in H as [H1 H2].
  destruct (decide (event_get event group_by = key)) as [<-|Hne]; [done|].
  rewrite bool_decide_eq_false_2 in Hp by done. auto.
Qed.

Lemma any_group_eq func_name field comparison_op threshold groups :
  any_group func_name field comparison_op threshold groups =
    match groups with
    | [] => Ok false
    | (_, part) :: rest =>
        match compared func_name field comparison_op threshold part with
        | Raise e => Raise e
        | Ok true => Ok true
        | Ok false => any_group func_name field comparison_op threshold rest
        end
    end.
Proof.
  destruct groups as [|[k part] rest]; [done|]. simpl. unfold compared.
  by destruct (_compute_aggregation func_name field part).
Qed.

Lemma any_group_spec func_name field comparison_op threshold groups :
  (forall key part, (key, part) ∈ groups ->
     exists b, compared func_name field comparison_op threshold part = Ok b) ->
  exists b, any_group func_name field comparison_op threshold groups = Ok b /\
    (b = true <-> exists key part, (key, part) ∈ groups /\
                    compared func_name field comparison_op threshold part = Ok true).
Proof.
  induction groups as [|[k part] rest IH]; intros Hok; rewrite any_group_eq.
  - exists false. split; [done|]. split; [done|].
    intros (? & ? & ?%elem_of_nil & _). done.
  - destruct (Hok k part) as [b Hb]; [by left|]. rewrite Hb. destruct b.
    + exists true. split; [done|]. split; [|done]. intros _. exists k, part. split; [by left|done].
    + destruct IH as (b & -> & Hiff).
      { intros key p Hin. apply (Hok key p). by right. }
      exists b. split; [done|]. rewrite Hiff. split.
      * intros (key & p & Hin & Hc). exists key, p. split; [by right|done].
      * intros (key & p & Hin & Hc). apply elem_of_cons in Hin as [[= -> ->]|Hin].
        -- congruence.
        -- by exists key, p.
Qed.

(** ** [evaluate], case by case *)

Lemma str_truthy_Some g : g ≠ EmptyString -> str_truthy (Some g) = true.
Proof. intros. unfold str_truthy. by rewrite decide_False. Qed.

Lemma event_truthy_Some (event : Event) : event ≠ ∅ -> event_truthy (Some event) = true.
Proof. intros. unfold event_truthy. by rewrite decide_False. Qed.

Section evaluate_cases.

Variables (self : store_ref) (rule_id func_name : string) (field group_by : option string)
  (comparison_op : string) (threshold : Z) (timeframe : option string)
  (current_event : option Event) (w w1 : World).

Hypothesis Hexpire : expire self rule_id timeframe w = (Ok tt, w1).

Let evs := dd_read (events (state_of self w1)) rule_id.
Let w2 := set_state self (events_touch rule_id (state_of self w1)) w1.
Let result := evaluate self rule_id func_name field group_by comparison_op threshold
                       timeframe current_event w.
Let g := default EmptyString group_by.
Let current_group := group_key g (default ∅ current_event).

Lemma evaluate_empty : evs = [] -> result = (Ok false, w2).
Proof.
  intros He. subst result. unfold evaluate, bind. rewrite Hexpire, get_events_eq.
  fold evs. by rewrite He.
Qed.

Lemma evaluate_ungrouped :
  evs ≠ [] -> str_truthy group_by = false ->
  result = (compared func_name field comparison_op threshold evs, w2).
Proof.
  intros He Hg. subst result. unfold evaluate, bind. rewrite Hexpire, get_events_eq.
  fold evs. destruct evs as [|e l] eqn:E; [done|]. rewrite Hg.
  unfold lift, compared, ret. by destruct (_compute_aggregation func_name field (e :: l)).
Qed.

Lemma evaluate_unhashable :
  evs ≠ [] -> str_truthy group_by = true -> keys_hashable g evs = false ->
  result = (Raise TypeError, w2).
Proof.
  intros He Hg Hk. subst result. unfold evaluate, bind. rewrite Hexpire, get_events_eq.
  fold evs. destruct evs as [|e l] eqn:E; [done|]. rewrite Hg.
  unfold lift. fold g. by rewrite (group_events_unhashable _ _ Hk).
Qed.

Lemma evaluate_triggered :
  evs ≠ [] -> str_truthy group_by = true -> keys_hashable g evs = true ->
  event_truthy current_event = true -> hashable current_group = true ->
  result = (match partition_of g current_group evs with
            | [] => Ok false
            | part => compared func_name field comparison_op threshold part
            end, w2).
Proof.
  intros He Hg Hk Hc Hh. subst result. unfold evaluate, bind. rewrite Hexpire, get_events_eq.
  fold evs. destruct evs as [|e l] eqn:E; [done|]. rewrite Hg.
  unfold lift. fold g. rewrite (group_events_grouped _ _ Hk), Hc.
  unfold groups_lookup. fold (group_key g (default ∅ current_event)). fold current_group.
  rewrite Hh, groups_find_grouped.
  destruct (partition_of _ _ (e :: l)) as [|x part]; [done|].
  unfold compared, ret. by destruct (_compute_aggregation func_name field (x :: part)).
Qed.

Lemma evaluate_unhashable_trigger :
  evs ≠ [] -> str_truthy group_by = true -> keys_hashable g evs = true ->
  event_truthy current_event = true -> hashable current_group = false ->
  result = (Raise TypeError, w2).
Proof.
  intros He Hg Hk Hc Hh. subst result. unfold evaluate, bind. rewrite Hexpire, get_events_eq.
  fold evs. destruct evs as [|e l] eqn:E; [done|]. rewrite Hg.
  unfold lift. fold g. rewrite (group_events_grouped _ _ Hk), Hc.
  unfold groups_lookup. fold (group_key g (default ∅ current_event)). fold current_group.
  by rewrite Hh.
Qed.

Lemma evaluate_fallback :
  evs ≠ [] -> str_truthy group_by = true -> keys_hashable g evs = true ->
  event_truthy current_event = false ->
  result = (any_group func_name field comparison_op threshold (grouped g evs), w2).
Proof.
  intros He Hg Hk Hc. subst result. unfold evaluate, bind. rewrite Hexpire, get_events_eq.
  fold evs. destruct evs as [|e l] eqn:E; [done|]. rewrite Hg.
  unfold lift. fold g. by rewrite (group_events_grouped _ _ Hk), Hc.
Qed.

End evaluate_cases.

(** C2. Whatever the function, the field, the grouping, the operator, the
    threshold and the triggering event: when expiry has run and the
    retained history of the rule is empty, [evaluate] returns [False].
    The only effect is that of [get_events]. *)
Theorem empty_history_is_false
    self rule_id func_name field group_by comparison_op threshold timeframe
    current_event w w1 :
  expire self rule_id timeframe w = (Ok tt, w1) ->
  dd_read (events (state_of self w1)) rule_id = [] ->
  evaluate self rule_id func_name field group_by comparison_op threshold
           timeframe current_event w
  = (Ok false, set_state self (events_touch rule_id (state_of self w1)) w1).
Proof. apply evaluate_empty. Qed.

(** C4, amended.  With [group_by] set and a non-empty retained history.
    When the [group_by] value of every retained event can be hashed, the
    groups are the non-empty partitions of the retained events by that
    value, an event without the field having the key [None].  With a
    triggering event that is not the empty dict and whose [group_by] value
    can be hashed, the verdict is the one on the partition of the
    triggering event's key alone ([False] when it is empty).  Without a
    triggering event, or with the empty dict, and when the aggregate of
    every partition can be computed, the verdict is [True] if and only if
    some partition satisfies the comparison.  A [group_by] value that
    cannot be hashed, in a retained event or in the triggering event, makes
    [evaluate] raise TypeError. *)
Theorem grouped_evaluation
    self rule_id func_name field g comparison_op threshold timeframe w w1 :
  expire self rule_id timeframe w = (Ok tt, w1) ->
  g ≠ EmptyString ->
  dd_read (events (state_of self w1)) rule_id ≠ [] ->
  let evs := dd_read (events (state_of self w1)) rule_id in
  let w2 := set_state self (events_touch rule_id (state_of self w1)) w1 in
  let run := evaluate self rule_id func_name field (Some g) comparison_op threshold timeframe in
  let verdict := compared func_name field comparison_op threshold in
  (keys_hashable g evs = true ->
     (exists groups, group_events g evs [] = Ok groups /\
        forall key part,
          (key, part) ∈ groups <-> part = partition_of g key evs /\ part ≠ []) /\
     (forall event : Event, event !! g = None -> group_key g event = VNone) /\
     (forall trigger : Event, trigger ≠ ∅ -> hashable (group_key g trigger) = true ->
        run (Some trigger) w =
          (match partition_of g (group_key g trigger) evs with
           | [] => Ok false
           | part => verdict part
           end, w2)) /\
     (forall trigger : Event, trigger ≠ ∅ -> hashable (group_key g trigger) = false ->
        run (Some trigger) w = (Raise TypeError, w2)) /\
     (forall current_event, event_truthy current_event = false ->
        (forall key, partition_of g key evs ≠ [] ->
           exists b, verdict (partition_of g key evs) = Ok b) ->
        exists b, run current_event w = (Ok b, w2) /\
          (b = true <-> exists key, partition_of g key evs ≠ []
                          /\ verdict (partition_of g key evs) = Ok true))) /\
  (keys_hashable g evs = false ->
     forall current_event, run current_event w = (Raise TypeError, w2)).
Proof.
  intros Hexpire Hg Hevs evs w2 run verdict. split.
  - intros Hk. split; [|split; [|split; [|split]]].
    + exists (grouped g evs). split; [by apply group_events_grouped|].
      intros key part. apply elem_of_grouped.
    + intros event He. unfold group_key, event_get. by rewrite He.
    + intros trigger Ht Hh. subst run.
      rewrite (evaluate_triggered _ _ _ _ _ _ _ _ _ _ _ Hexpire);
        auto using str_truthy_Some, event_truthy_Some.
    + intros trigger Ht Hh. subst run.
      rewrite (evaluate_unhashable_trigger _ _ _ _ _ _ _ _ _ _ _ Hexpire);
        auto using str_truthy_Some, event_truthy_Some.
    + intros current_event Hc Hok. subst run.
      rewrite (evaluate_fallback _ _ _ _ _ _ _ _ _ _ _ Hexpire);
        auto using str_truthy_Some.
      cbn [default from_option]. unfold id.
      destruct (any_group_spec func_name field comparison_op threshold (grouped g evs))
        as (b & Hb & Hiff).
      { intros key part [-> Hne]%elem_of_grouped. by apply Hok. }
      exists b. split; [by fold evs; rewrite Hb|]. rewrite Hiff. split.
      * intros (key & part & [-> Hne]%elem_of_grouped & Hv). by exists key.
      * intros (key & Hne & Hv). exists key, (partition_of g key evs).
        split; [by apply elem_of_grouped|done].
  - intros Hk current_event. subst run.
    by rewrite (evaluate_unhashable _ _ _ _ _ _ _ _ _ _ _ Hexpire);
      auto using str_truthy_Some.
Qed.

(** C10, amended.  With [group_by] set, a triggering event that is not the
    empty dict, and [group_by] values that can be hashed, in the
    triggering event as in every retained event: when no retained event
    has the triggering event's value of the [group_by] field, [evaluate]
    returns [False], whatever the function, the operator and the threshold
    are. *)
Theorem trigger_partition_empty_is_false
    self rule_id func_name field g comparison_op threshold timeframe trigger w w1 :
  expire self rule_id timeframe w = (Ok tt, w1) ->
  g ≠ EmptyString ->
  trigger ≠ ∅ ->
  keys_hashable g (dd_read (events (state_of self w1)) rule_id) = true ->
  hashable (group_key g trigger) = true ->
  (forall event, event ∈ dd_read (events (state_of self w1)) rule_id ->
     group_key g event ≠ group_key g trigger) ->
  evaluate self rule_id func_name field (Some g) comparison_op threshold
           timeframe (Some trigger) w
  = (Ok false, set_state self (events_touch rule_id (state_of self w1)) w1).
Proof.
  intros Hexpire Hg Ht Hk Hh Hno.
  destruct (dd_read (events (state_of self w1)) rule_id) as [|e l] eqn:E.
  - by apply evaluate_empty.
  - rewrite (evaluate_triggered _ _ _ _ _ _ _ _ _ _ _ Hexpire);
      rewrite ?E; auto using str_truthy_Some, event_truthy_Some.
    cbn [default from_option]. unfold id.
    assert (Hp : partition_of g (group_key g trigger) (e :: l) = []).
    { unfold partition_of. clear E Hk. induction (e :: l) as [|x xs IH]; [done|].
      simpl. rewrite bool_decide_eq_false_2.
      - apply IH. intros ev Hin. apply Hno. by right.
      - apply Hno. by left. }
    by rewrite Hp.
Qed.

(** ** The compiled conditions *)

Lemma tree_induction (P : tree -> Prop) :
  (forall name, P (TSearchId name)) ->
  (forall count pattern, P (TXOf count pattern)) ->
  (forall t, P t -> P (TAtom t)) ->
  (forall negate t, P t -> P (TNot negate t)) ->
  (forall ts, Forall P ts -> P (TAnd ts)) ->
  (forall ts, Forall P ts -> P (TOr ts)) ->
  (forall base, P base -> P (TPipe base None)) ->
  (forall base f field group_by op value,
     P base -> P (TPipe base (Some (AggCall f field group_by op value)))) ->
  (forall base condition,
     P base -> P condition -> P (TPipe base (Some (AggNear condition)))) ->
  forall t, P t.
Proof.
  intros Hs Hx Ha Hn Hand Hor Hp Hc Hne.
  fix IH 1. intros [name|count pattern|t|negate t|ts|ts|base aggregation].
  - apply Hs.
  - apply Hx.
  - apply Ha, IH.
  - apply Hn, IH.
  - apply Hand. induction ts as [|t ts IHts]; constructor; [apply IH | apply IHts].
  - apply Hor. induction ts as [|t ts IHts]; constructor; [apply IH | apply IHts].
  - destruct aggregation as [[f field group_by op value|condition]|].
    + apply Hc, IH.
    + apply Hne; apply IH.
    + apply Hp, IH.
Qed.

Lemma transform_pipe base aggregation :
  transform (TPipe base (Some aggregation))
  = _pipe_with_aggregation (transform base) (Some (aggregation_pred aggregation)).
Proof. by destruct aggregation. Qed.

Lemma store_free_not negate p : store_free p -> store_free (not_rule negate p).
Proof.
  intros H. destruct negate; [|done]. intros signature event.
  destruct (H signature event) as [b Hb]. exists (negb b). intros a w.
  simpl. unfold bind. by rewrite Hb.
Qed.

Lemma store_blind_not negate p : store_blind p -> store_blind (not_rule negate p).
Proof.
  intros H. destruct negate; [|done]. intros signature event.
  destruct (H signature event) as [b Hb]. exists (negb b). intros a w.
  simpl. unfold bind. specialize (Hb a w).
  destruct (p signature event a w) as [[r|e] w']; simpl in *; congruence.
Qed.

Lemma store_free_and_operation args :
  Forall store_free args -> store_free (_and_operation args).
Proof.
  induction 1 as [|p args Hp _ IH]; intros signature event.
  - by exists true.
  - destruct (Hp signature event) as [b Hb], (IH signature event) as [b' Hb'].
    exists (b && b'). intros a w. simpl. unfold bind. rewrite Hb.
    destruct b; simpl; [apply Hb'|done].
Qed.

Lemma store_free_or_operation args :
  Forall store_free args -> store_free (_or_operation args).
Proof.
  induction 1 as [|p args Hp _ IH]; intros signature event.
  - by exists false.
  - destruct (Hp signature event) as [b Hb], (IH signature event) as [b' Hb'].
    exists (b || b'). intros a w. simpl. unfold bind. rewrite Hb.
    destruct b; simpl; [done|apply Hb'].
Qed.

Lemma store_blind_and_operation args :
  Forall store_blind args -> store_blind (_and_operation args).
Proof.
  induction 1 as [|p args Hp _ IH]; intros signature event.
  - by exists true.
  - destruct (Hp signature event) as [b Hb], (IH signature event) as [b' Hb'].
    exists (b && b'). intros a w. simpl. unfold bind. specialize (Hb a w).
    destruct (p signature event a w) as [[r|e] w']; simpl in Hb; [|done].
    injection Hb as ->. destruct b; simpl; [apply Hb'|done].
Qed.

Lemma store_blind_or_operation args :
  Forall store_blind args -> store_blind (_or_operation args).
Proof.
  induction 1 as [|p args Hp _ IH]; intros signature event.
  - by exists false.
  - destruct (Hp signature event) as [b Hb], (IH signature event) as [b' Hb'].
    exists (b || b'). intros a w. simpl. unfold bind. specialize (Hb a w).
    destruct (p signature event a w) as [[r|e] w']; simpl in Hb; [|done].
    injection Hb as ->. destruct b; simpl; [done|apply Hb'].
Qed.

Lemma and_rule_cases (Q : pred -> Prop) args :
  Forall Q args -> Q (_and_operation args) -> Q (and_rule args).
Proof. intros HF H. destruct args as [|x [|y l]]; try done. by inversion HF. Qed.

Lemma or_rule_cases (Q : pred -> Prop) args :
  Forall Q args -> Q (_or_operation args) -> Q (or_rule args).
Proof. intros HF H. destruct args as [|x [|y l]]; try done. by inversion HF. Qed.

Lemma Forall_transform (Q : pred -> Prop) (good : tree -> bool) ts :
  Forall (fun t => good t = true -> Q (transform t)) ts ->
  forallb good ts = true -> Forall Q (map transform ts).
Proof.
  induction 1 as [|t ts Ht _ IH]; simpl; intros Hg; [constructor|].
  apply andb_prop in Hg as [? ?]. constructor; auto.
Qed.

(** A condition without [pipe_rule] nodes neither reads nor changes the
    world, and its verdict is fixed by the rule and the event. *)
Lemma pipe_free_store_free t : pipe_free t = true -> store_free (transform t).
Proof.
  induction t using tree_induction; simpl; intros Hf; try discriminate.
  - intros signature event. by eexists.
  - intros signature event. by eexists.
  - auto.
  - auto using store_free_not.
  - pose proof (Forall_transform store_free pipe_free ts H Hf).
    by apply and_rule_cases, store_free_and_operation.
  - pose proof (Forall_transform store_free pipe_free ts H Hf).
    by apply or_rule_cases, store_free_or_operation.
Qed.

(** The verdict of a condition without an aggregation clause is fixed by
    the rule and the event: it is the same for every store argument and
    every content of the stores. *)
Lemma aggregation_free_store_blind t :
  aggregation_free t = true -> store_blind (transform t).
Proof.
  induction t using tree_induction; simpl; intros Hf; try discriminate.
  - intros signature event. by eexists.
  - intros signature event. by eexists.
  - auto.
  - auto using store_blind_not.
  - pose proof (Forall_transform store_blind aggregation_free ts H Hf).
    by apply and_rule_cases, store_blind_and_operation.
  - pose proof (Forall_transform store_blind aggregation_free ts H Hf).
    by apply or_rule_cases, store_blind_or_operation.
  - intros signature event. destruct (IHt Hf signature event) as [b Hb].
    exists b. intros a w. unfold _pipe_with_aggregation, bind. specialize (Hb a w).
    destruct (transform t signature event a w) as [[r|e] w']; simpl in Hb; [|done].
    injection Hb as ->. destruct b; simpl; [|done].
    by destruct (add_event_spec (resolve a) (sig_id signature) event "UtcTime" w')
      as (ts & w0 & _ & ->).
Qed.

Lemma pipe_with_aggregation_eq base aggregation signature event aggregation_state w :
  _pipe_with_aggregation base aggregation signature event aggregation_state w =
    match base signature event aggregation_state w with
    | (Raise e, w1) => (Raise e, w1)
    | (Ok false, w1) => (Ok false, w1)
    | (Ok true, w1) =>
        let w2 := (add_event (resolve aggregation_state) (sig_id signature) event
                             "UtcTime" w1).2 in
        match aggregation with
        | Some aggregation =>
            aggregation signature event (Some (resolve aggregation_state)) w2
        | None => (Ok true, w2)
        end
    end.
Proof.
  unfold _pipe_with_aggregation, bind.
  destruct (base signature event aggregation_state w) as [[[|]|e] w1]; simpl; try done.
  destruct (add_event_spec (resolve aggregation_state) (sig_id signature) event
              "UtcTime" w1) as (ts & w0 & _ & ->).
  by destruct aggregation.
Qed.

(** C1, amended.  A condition [base | aggregation] is evaluated in two
    phases.  When the base is false the predicate returns [False] and does
    nothing itself: the world is the one the evaluation of the base left.
    When the base is true the event is appended to the history of the
    rule, in the store that the base left, and the aggregation predicate
    is then evaluated in that world and gives the result; so the result
    is [base_result and aggregation_result].  An exception of the base is
    passed on.  When the base contains no [pipe_rule] node (no
    parenthesised sub-condition) and is false, the world is unchanged. *)
Theorem pipe_is_two_phase base aggregation signature event aggregation_state w :
  let p := transform (TPipe base (Some aggregation)) in
  let store := resolve aggregation_state in
  let recorded w1 := (add_event store (sig_id signature) event "UtcTime" w1).2 in
  let second w1 := aggregation_pred aggregation signature event (Some store) (recorded w1) in
  match transform base signature event aggregation_state w with
  | (Raise e, w1) => p signature event aggregation_state w = (Raise e, w1)
  | (Ok false, w1) => p signature event aggregation_state w = (Ok false, w1)
  | (Ok true, w1) =>
      dd_read (events (state_of store (recorded w1))) (sig_id signature)
        = dd_read (events (state_of store w1)) (sig_id signature) ++ [event]
      /\ p signature event aggregation_state w = second w1
      /\ (forall b, (second w1).1 = Ok b ->
            (p signature event aggregation_state w).1 = Ok (true && b))
  end
  /\ (pipe_free base = true ->
      (transform base signature event aggregation_state w).1 = Ok false ->
      p signature event aggregation_state w = (Ok false, w)).
Proof.
  intros p store recorded second. subst p second recorded store.
  rewrite transform_pipe, pipe_with_aggregation_eq. split.
  - destruct (transform base signature event aggregation_state w) as [[[|]|e] w1] eqn:Hb;
      try done.
    split; [|split; [done|by intros b Hb']].
    destruct (add_event_spec (resolve aggregation_state) (sig_id signature) event
                "UtcTime" w1) as (ts & w0 & Hw0 & ->).
    cbn [snd]. rewrite state_of_set_state. simpl. by rewrite dd_read_append_eq.
  - intros Hfree Hfalse.
    destruct (pipe_free_store_free base Hfree signature event) as [b Hb].
    rewrite Hb in Hfalse |- *. simpl in Hfalse. by injection Hfalse as ->.
Qed.

(** ** Timeframes that do not parse *)

(** A timeframe whose last character, after stripping, is none of
    [M d h m s] parses to [None]: no expiry. *)
Lemma parse_timeframe_unknown_suffix timeframe :
  endswith (py_strip timeframe) "M" = false ->
  endswith (py_strip timeframe) "d" = false ->
  endswith (py_strip timeframe) "h" = false ->
  endswith (py_strip timeframe) "m" = false ->
  endswith (py_strip timeframe) "s" = false ->
  _parse_timeframe timeframe = Ok None.
Proof.
  intros HM Hd Hh Hm Hs. unfold _parse_timeframe.
  destruct (decide (timeframe = EmptyString)); [done|].
  by rewrite HM, Hd, Hh, Hm, Hs.
Qed.

(** A known suffix after a prefix that [int] rejects: [_parse_timeframe]
    raises ValueError. *)
Lemma parse_timeframe_bad_prefix timeframe :
  timeframe ≠ EmptyString ->
  (endswith (py_strip timeframe) "M" || endswith (py_strip timeframe) "d"
   || endswith (py_strip timeframe) "h" || endswith (py_strip timeframe) "m"
   || endswith (py_strip timeframe) "s") = true ->
  py_int (but_last (py_strip timeframe)) = None ->
  _parse_timeframe timeframe = Raise ValueError.
Proof.
  intros Hne Hs Hi. unfold _parse_timeframe, int_then.
  rewrite decide_False by done. rewrite Hi.
  destruct (endswith (py_strip timeframe) "M"); [done|].
  destruct (endswith (py_strip timeframe) "d"); [done|].
  destruct (endswith (py_strip timeframe) "h"); [done|].
  destruct (endswith (py_strip timeframe) "m"); [done|].
  destruct (endswith (py_strip timeframe) "s"); [done|].
  done.
Qed.

(** The invariant of the store, operation by operation *)
Lemma store_inv_initial n : store_inv (mkWorld new_state new_state n).
Proof. intros []; apply coindexed_new_state. Qed.


(** ** Small facts used when the theorems are applied to concrete inputs *)

Lemma pair_eta {A B} (x : A * B) (a : A) : x.1 = a -> x = (a, x.2).
Proof. destruct x. simpl. by intros ->. Qed.

Lemma length_zero_nil {A} (l : list A) : length l = 0%nat -> l = [].
Proof. by destruct l. Qed.

Lemma length_pos_not_nil {A} (l : list A) n : length l = S n -> l ≠ [].
Proof. by destruct l. Qed.

Lemma dd_read_length_has_key {A} (d : gmap string (list A)) k n :
  length (dd_read d k) = S n -> d !! k ≠ None.
Proof. unfold dd_read. intros H Hn. by rewrite Hn in H. Qed.

Lemma truthy_field_not_empty (event : Event) field :
  truthy (event_get event field) = true -> event ≠ ∅.
Proof. intros H ->. unfold event_get in H. by rewrite lookup_empty in H. Qed.

Lemma partition_empty_no_key group_by key events :
  length (partition_of group_by key events) = 0%nat ->
  forall event, event ∈ events -> event_get event group_by ≠ key.
Proof.
  intros H%length_zero_nil event Hin Hk. unfold partition_of in H.
  induction events as [|x xs IH]; [by apply elem_of_nil in Hin|].
  simpl in H. destruct (decide (event_get x group_by = key)) as [Hx|Hx].
  - by rewrite bool_decide_eq_true_2 in H.
  - rewrite bool_decide_eq_false_2 in H by done.
    apply elem_of_cons in Hin as [->|Hin]; auto.
Qed.


(** * Further properties of the store *)

Lemma add_event_eq self rule_id event timestamp_field w :
  add_event self rule_id event timestamp_field w =
    (Ok tt,
     match own_timestamp event timestamp_field with
     | Some ts =>
         set_state self
           (timestamps_append rule_id ts (events_append rule_id event (state_of self w))) w
     | None =>
         set_state self
           (timestamps_append rule_id (VDatetime (wall_clock (now_calls w)))
              (events_append rule_id event (state_of self w)))
           (tick w)
     end).
Proof.
  unfold add_event, own_timestamp, bind, update_state, now.
  assert (Hs : forall f g w1,
             set_state self (f (state_of self (set_state self (g (state_of self w)) w1)))
                       (set_state self (g (state_of self w)) w1)
             = set_state self (f (g (state_of self w))) w1).
  { intros. by rewrite state_of_set_state, set_state_set_state. }
  destruct (truthy (event_get event timestamp_field)) eqn:Htruthy.
  - destruct (event_get event timestamp_field) as [|n|s|t|items|items] eqn:Hg; cbn [option_map].
    + by rewrite Hs.
    + by rewrite Hs.
    + destruct (strptime s); cbn [option_map].
      * by rewrite Hs.
      * by destruct self.
    + by rewrite Hs.
    + by rewrite Hs.
    + by rewrite Hs.
  - by destruct self.
Qed.

(** X1. [add_event] never raises.  It appends the event to the rule's
    events and one timestamp to the rule's timestamps: the event's own
    ([own_timestamp]: the parsed string, or the value itself when it is
    truthy and not a string) or else the reading of the clock, which is
    read in that case only.  The other store object is not touched. *)
Theorem add_event_stamps self rule_id event timestamp_field w :
  let r := add_event self rule_id event timestamp_field w in
  let ts := default (VDatetime (wall_clock (now_calls w)))
                    (own_timestamp event timestamp_field) in
  r.1 = Ok tt
  /\ dd_read (events (state_of self r.2)) rule_id
     = dd_read (events (state_of self w)) rule_id ++ [event]
  /\ dd_read (timestamps (state_of self r.2)) rule_id
     = dd_read (timestamps (state_of self w)) rule_id ++ [ts]
  /\ now_calls r.2 = match own_timestamp event timestamp_field with
                     | Some _ => now_calls w
                     | None => S (now_calls w)
                     end
  /\ state_of (other_store self) r.2 = state_of (other_store self) w.
Proof.
  intros r ts. subst r ts. rewrite add_event_eq. cbn [fst snd].
  destruct (own_timestamp event timestamp_field) as [ts|]; cbn [default from_option];
    rewrite ?state_of_set_state; simpl;
    rewrite ?dd_read_append_eq, ?now_calls_set_state;
    repeat split; by destruct self.
Qed.

Lemma get_events_value self rule_id w :
  (get_events self rule_id w).1 = Ok (dd_read (events (state_of self w)) rule_id).
Proof. by rewrite get_events_eq. Qed.

Lemma add_event_events self rule_id event timestamp_field w rule_id' :
  dd_read (events (state_of self (add_event self rule_id event timestamp_field w).2)) rule_id'
  = if decide (rule_id = rule_id')
    then dd_read (events (state_of self w)) rule_id' ++ [event]
    else dd_read (events (state_of self w)) rule_id'.
Proof.
  destruct (add_event_spec self rule_id event timestamp_field w) as (ts & w0 & _ & ->).
  cbn [snd]. rewrite state_of_set_state. simpl.
  destruct (decide (rule_id = rule_id')) as [<-|Hne].
  - by rewrite dd_read_append_eq.
  - by rewrite dd_read_append_ne.
Qed.

(** X2. [get_events] returns what [add_event] recorded, in the order of
    recording: after a sequence of events has been added for a rule it
    returns the rule's earlier events followed by that sequence, and for
    any other rule what it returned before.  For a rule of which nothing
    was recorded it returns the empty list. *)
Theorem get_events_returns_recorded self rule_id timestamp_field evs w :
  let w' := fold_left (fun w event => (add_event self rule_id event timestamp_field w).2)
                      evs w in
  (get_events self rule_id w').1 = Ok (dd_read (events (state_of self w)) rule_id ++ evs)
  /\ (forall rule_id', rule_id ≠ rule_id' ->
        (get_events self rule_id' w').1 = (get_events self rule_id' w).1)
  /\ (forall n, (get_events self rule_id (mkWorld new_state new_state n)).1 = Ok []).
Proof.
  intros w'. subst w'. rewrite !get_events_value. split; [|split].
  - revert w. induction evs as [|event evs IH]; intros w; simpl.
    + by rewrite app_nil_r.
    + rewrite IH, add_event_events, decide_True by done. by rewrite <- app_assoc.
  - intros rule_id' Hne. rewrite !get_events_value. f_equal.
    revert w. induction evs as [|event evs IH]; intros w; simpl; [done|].
    by rewrite IH, add_event_events, decide_False.
  - intros n. rewrite get_events_value. by destruct self.
Qed.

(** X3. [clear_rule] never raises, also for a rule it does not know.  It
    removes the rule's key from both dictionaries, so that [get_events]
    returns the empty list for it; the entries of other rules and the
    other store object stay as they are; a second [clear_rule] changes
    nothing, and neither does the first when the rule had no entry. *)
Theorem clear_rule_forgets_one_rule self rule_id w :
  let r := clear_rule self rule_id w in
  r.1 = Ok tt
  /\ events (state_of self r.2) !! rule_id = None
  /\ timestamps (state_of self r.2) !! rule_id = None
  /\ (get_events self rule_id r.2).1 = Ok []
  /\ (forall rule_id', rule_id ≠ rule_id' ->
        events (state_of self r.2) !! rule_id' = events (state_of self w) !! rule_id'
        /\ timestamps (state_of self r.2) !! rule_id' = timestamps (state_of self w) !! rule_id')
  /\ state_of (other_store self) r.2 = state_of (other_store self) w
  /\ clear_rule self rule_id r.2 = (Ok tt, r.2)
  /\ (events (state_of self w) !! rule_id = None ->
      timestamps (state_of self w) !! rule_id = None -> r.2 = w).
Proof.
  intros r. subst r. unfold clear_rule, update_state. cbn [fst snd].
  rewrite !state_of_set_state. cbn [events timestamps].
  split; [done|]. split; [apply lookup_delete_eq|]. split; [apply lookup_delete_eq|].
  split. { rewrite get_events_value, state_of_set_state. simpl. by rewrite dd_read_delete_eq. }
  split. { intros rule_id' Hne. by rewrite !lookup_delete_ne. }
  split. { by destruct self. }
  split. { rewrite !delete_delete_eq, set_state_set_state. done. }
  intros He Ht. rewrite !delete_id by done.
  destruct self, w as [[] [] ?]; reflexivity.
Qed.

(** X4. For a rule without history [evaluate] returns [False] and does not
    raise, whatever the timeframe is, a malformed one included:
    [cleanup_old_events] returns before it parses the timeframe. *)
Theorem evaluate_without_history
    self rule_id func_name field group_by comparison_op threshold timeframe
    current_event w :
  timestamps (state_of self w) !! rule_id = None ->
  dd_read (events (state_of self w)) rule_id = [] ->
  evaluate self rule_id func_name field group_by comparison_op threshold
           timeframe current_event w
  = (Ok false, set_state self (events_touch rule_id (state_of self w)) w).
Proof.
  intros Ht He. apply evaluate_empty; [|done].
  unfold expire. destruct (str_truthy timeframe); [|done].
  apply cleanup_noop_eq. right. by left.
Qed.

(** X5. After [reset_aggregation_state] the singleton store is empty:
    [get_events] returns the empty list and [evaluate] returns [False] for
    every rule and every timeframe.  The store object of the caller and
    the clock are not touched. *)
Theorem reset_forgets_everything w :
  let r := reset_aggregation_state w in
  r.1 = Ok tt
  /\ (forall rule_id, (get_events GlobalStore rule_id r.2).1 = Ok [])
  /\ (forall rule_id func_name field group_by comparison_op threshold timeframe current_event,
        (evaluate GlobalStore rule_id func_name field group_by comparison_op threshold
                  timeframe current_event r.2).1 = Ok false)
  /\ caller_state r.2 = caller_state w
  /\ now_calls r.2 = now_calls w.
Proof.
  intros r. subst r. unfold reset_aggregation_state. cbn [fst snd].
  split; [done|]. split; [|split; [|done]].
  - intros rule_id. by rewrite get_events_value.
  - intros. unfold evaluate, bind.
    assert (Hx : expire GlobalStore rule_id timeframe
                   (mkWorld new_state (caller_state w) (now_calls w))
                 = (Ok tt, mkWorld new_state (caller_state w) (now_calls w))).
    { unfold expire. destruct (str_truthy timeframe); [|done].
      apply cleanup_noop_eq. right. by left. }
    rewrite Hx, get_events_eq. reflexivity.
Qed.

(** * Further properties of expiry *)

Lemma mk_timedelta_outcome us :
  match mk_timedelta us with
  | Ok d => d = us /\ - timedelta_max_days <= us / us_per_day <= timedelta_max_days
  | Raise e => e = OverflowError
  end.
Proof.
  unfold mk_timedelta.
  destruct ((- timedelta_max_days <=? us / us_per_day)
            && (us / us_per_day <=? timedelta_max_days)) eqn:E; [|done].
  apply andb_prop in E as [?%Z.leb_le ?%Z.leb_le]. auto.
Qed.

Lemma mk_timedelta_raise us e :
  mk_timedelta us = Raise e ->
  e = OverflowError
  /\ ~ (- timedelta_max_days <= us / us_per_day <= timedelta_max_days).
Proof.
  unfold mk_timedelta.
  destruct ((- timedelta_max_days <=? us / us_per_day)
            && (us / us_per_day <=? timedelta_max_days)) eqn:E; [done|].
  intros [= <-]. split; [done|]. intros [H1 H2].
  apply Z.leb_le in H1, H2. by rewrite H1, H2 in E.
Qed.

Lemma parse_timeframe_cases timeframe :
  let s := py_strip timeframe in
  let prefix := py_int (but_last s) in
  let in_range (us : Z) :=
    - timedelta_max_days <= us / us_per_day <= timedelta_max_days in
  match _parse_timeframe timeframe with
  | Ok (Some d) =>
      timeframe ≠ EmptyString
      /\ exists c seconds n,
           (c, seconds) ∈ timeframe_units /\ endswith s c = true
           /\ prefix = Some n
           /\ d = n * seconds * us_per_second
           /\ in_range d
  | Ok None =>
      timeframe = EmptyString
      \/ Forall (fun unit => endswith s unit.1 = false) timeframe_units
  | Raise ValueError =>
      timeframe ≠ EmptyString
      /\ (exists c seconds, (c, seconds) ∈ timeframe_units /\ endswith s c = true)
      /\ prefix = None
  | Raise OverflowError =>
      timeframe ≠ EmptyString
      /\ exists c seconds n,
           (c, seconds) ∈ timeframe_units /\ endswith s c = true
           /\ prefix = Some n
           /\ ~ in_range (n * seconds * us_per_second)
  | Raise TypeError => False
  end.
Proof.
  intros s prefix in_range. subst s prefix in_range. unfold _parse_timeframe, int_then.
  destruct (decide (timeframe = EmptyString)) as [Htf|Htf]; [by left|].
  assert (Hunit : forall us c seconds,
    (c, seconds) ∈ timeframe_units ->
    endswith (py_strip timeframe) c = true ->
    (forall n, us n = n * seconds * us_per_second) ->
    match
      match
        match py_int (but_last (py_strip timeframe)) with
        | Some n => mk_timedelta (us n)
        | None => Raise ValueError
        end
      with Ok d => Ok (Some d) | Raise e => Raise e end
    with
    | Ok (Some d) =>
        timeframe ≠ EmptyString
        /\ exists c seconds n,
             (c, seconds) ∈ timeframe_units /\ endswith (py_strip timeframe) c = true
             /\ py_int (but_last (py_strip timeframe)) = Some n
             /\ d = n * seconds * us_per_second
             /\ - timedelta_max_days <= d / us_per_day <= timedelta_max_days
    | Ok None =>
        timeframe = EmptyString
        \/ Forall (fun unit => endswith (py_strip timeframe) unit.1 = false) timeframe_units
    | Raise ValueError =>
        timeframe ≠ EmptyString
        /\ (exists c seconds,
              (c, seconds) ∈ timeframe_units /\ endswith (py_strip timeframe) c = true)
        /\ py_int (but_last (py_strip timeframe)) = None
    | Raise OverflowError =>
        timeframe ≠ EmptyString
        /\ exists c seconds n,
             (c, seconds) ∈ timeframe_units /\ endswith (py_strip timeframe) c = true
             /\ py_int (but_last (py_strip timeframe)) = Some n
             /\ ~ (- timedelta_max_days <= n * seconds * us_per_second / us_per_day
                   <= timedelta_max_days)
    | Raise TypeError => False
    end).
  { intros us c seconds Hin Hend Hus.
    destruct (py_int (but_last (py_strip timeframe))) as [n|].
    - pose proof (mk_timedelta_outcome (us n)) as H.
      destruct (mk_timedelta (us n)) as [d|e] eqn:E.
      + destruct H as [-> H]. split; [done|]. exists c, seconds, n. rewrite <- Hus. auto.
      + apply mk_timedelta_raise in E as [-> Hout]. split; [done|].
        exists c, seconds, n. rewrite <- Hus. auto.
    - split; [done|]. split; [|done]. by exists c, seconds. }
  destruct (endswith (py_strip timeframe) "M") eqn:HM.
  { apply (Hunit (fun n => n * 30 * us_per_day) "M"%char 2592000);
      [unfold timeframe_units; set_solver|done|].
    intros n. unfold us_per_day. lia. }
  destruct (endswith (py_strip timeframe) "d") eqn:Hd.
  { apply (Hunit (fun n => n * us_per_day) "d"%char 86400);
      [unfold timeframe_units; set_solver|done|].
    intros n. unfold us_per_day. lia. }
  destruct (endswith (py_strip timeframe) "h") eqn:Hh.
  { apply (Hunit (fun n => n * 3600 * us_per_second) "h"%char 3600);
      [unfold timeframe_units; set_solver|done|]. intros n. lia. }
  destruct (endswith (py_strip timeframe) "m") eqn:Hm.
  { apply (Hunit (fun n => n * 60 * us_per_second) "m"%char 60);
      [unfold timeframe_units; set_solver|done|]. intros n. lia. }
  destruct (endswith (py_strip timeframe) "s") eqn:Hs.
  { apply (Hunit (fun n => n * us_per_second) "s"%char 1);
      [unfold timeframe_units; set_solver|done|]. intros n. lia. }
  right. unfold timeframe_units. repeat constructor; done.
Qed.

Lemma endswith_unique s c1 c2 :
  endswith s c1 = true -> endswith s c2 = true -> c1 = c2.
Proof.
  induction s as [|a s IH]; [done|]. destruct s as [|b s].
  - simpl. intros H1%Ascii.eqb_eq H2%Ascii.eqb_eq. congruence.
  - exact IH.
Qed.

Lemma timeframe_units_functional c seconds seconds' :
  (c, seconds) ∈ timeframe_units -> (c, seconds') ∈ timeframe_units -> seconds = seconds'.
Proof.
  unfold timeframe_units. intros H1 H2.
  repeat (apply elem_of_cons in H1 as [H1|H1]); [..|by apply elem_of_nil in H1];
    injection H1 as -> ->;
    repeat (apply elem_of_cons in H2 as [H2|H2]); try (by apply elem_of_nil in H2);
    try discriminate H2; by injection H2.
Qed.

(** X6. What [_parse_timeframe] returns, case by case.  It returns a
    duration exactly for a non-empty string whose last character after
    stripping is one of the suffixes [M], [d], [h], [m], [s] and whose
    text before it [int] accepts, provided the duration, that integer
    times the suffix's own unit (30 days, a day, an hour, a minute, a
    second), lies in the range of [timedelta]; when it does not, the call
    raises OverflowError.  With such a suffix it raises ValueError when
    [int] rejects the prefix; it never raises TypeError.  It returns
    [None] for the empty string and for a string without such a suffix,
    and for no other. *)
Theorem parse_timeframe_outcomes timeframe :
  let s := py_strip timeframe in
  let prefix := py_int (but_last s) in
  let in_range (us : Z) :=
    - timedelta_max_days <= us / us_per_day <= timedelta_max_days in
  match _parse_timeframe timeframe with
  | Ok (Some d) =>
      timeframe ≠ EmptyString
      /\ exists c seconds n,
           (c, seconds) ∈ timeframe_units /\ endswith s c = true
           /\ prefix = Some n
           /\ d = n * seconds * us_per_second
           /\ in_range d
  | Ok None =>
      timeframe = EmptyString
      \/ Forall (fun unit => endswith s unit.1 = false) timeframe_units
  | Raise ValueError =>
      timeframe ≠ EmptyString
      /\ (exists c seconds, (c, seconds) ∈ timeframe_units /\ endswith s c = true)
      /\ prefix = None
  | Raise OverflowError =>
      timeframe ≠ EmptyString
      /\ exists c seconds n,
           (c, seconds) ∈ timeframe_units /\ endswith s c = true
           /\ prefix = Some n
           /\ ~ in_range (n * seconds * us_per_second)
  | Raise TypeError => False
  end
  /\ (forall c seconds n,
        timeframe ≠ EmptyString ->
        (c, seconds) ∈ timeframe_units -> endswith s c = true -> prefix = Some n ->
        (in_range (n * seconds * us_per_second) ->
           _parse_timeframe timeframe = Ok (Some (n * seconds * us_per_second)))
        /\ (~ in_range (n * seconds * us_per_second) ->
              _parse_timeframe timeframe = Raise OverflowError)).
Proof.
  intros s prefix in_range. split; [apply parse_timeframe_cases|].
  intros c seconds n Hne Hin Hend Hn.
  pose proof (parse_timeframe_cases timeframe) as H. cbn zeta in H.
  fold s prefix in H.
  assert (Hsame : forall c' seconds' n',
            (c', seconds') ∈ timeframe_units -> endswith s c' = true ->
            prefix = Some n' -> seconds' = seconds /\ n' = n).
  { intros c' seconds' n' Hin' Hend' Hn'.
    rewrite (endswith_unique _ _ _ Hend' Hend) in Hin'.
    split; [by apply (timeframe_units_functional c)|congruence]. }
  destruct (_parse_timeframe timeframe) as [[d|]|[]].
  - destruct H as (_ & c' & seconds' & n' & Hin' & Hend' & Hn' & -> & Hr).
    destruct (Hsame c' seconds' n' Hin' Hend' Hn') as [-> ->]. by split.
  - destruct H as [?|HF]; [done|]. rewrite Forall_forall in HF.
    specialize (HF _ Hin). cbn [fst] in HF. congruence.
  - destruct H as (_ & _ & Hnone). congruence.
  - done.
  - destruct H as (_ & c' & seconds' & n' & Hin' & Hend' & Hn' & Hr).
    destruct (Hsame c' seconds' n' Hin' Hend' Hn') as [-> ->]. by split.
Qed.

(** X7. A call of [cleanup_old_events] that raises loses nothing: the
    history of every rule, in either store, is what it was before the
    call. *)
Theorem failed_cleanup_keeps_histories self rule_id timeframe w e :
  (cleanup_old_events self rule_id timeframe w).1 = Raise e ->
  forall self' rule_id',
    history (state_of self' (cleanup_old_events self rule_id timeframe w).2) rule_id'
    = history (state_of self' w) rule_id'.
Proof.
  intros Hraise self' rule_id'.
  destruct (cleanup_old_events_run self rule_id timeframe w); simpl in *;
    try discriminate; rewrite ?state_of_tick; try done.
  destruct (decide (self = self')) as [<-|Hne].
  - by rewrite state_of_set_state, history_events_touch.
  - by rewrite state_of_set_state_ne, state_of_tick.
Qed.

(** * Further properties of the evaluator *)

(** X8. Without grouping ([group_by] is [None] or the empty string) and
    with a non-empty retained history, the verdict of [evaluate] is the
    aggregate over all retained events of the rule, compared with the
    threshold; an exception of the aggregation is passed on. *)
Theorem ungrouped_evaluation
    self rule_id func_name field group_by comparison_op threshold timeframe
    current_event w w1 :
  expire self rule_id timeframe w = (Ok tt, w1) ->
  dd_read (events (state_of self w1)) rule_id ≠ [] ->
  group_by = None \/ group_by = Some EmptyString ->
  evaluate self rule_id func_name field group_by comparison_op threshold
           timeframe current_event w
  = (compared func_name field comparison_op threshold
       (dd_read (events (state_of self w1)) rule_id),
     set_state self (events_touch rule_id (state_of self w1)) w1).
Proof.
  intros Hexpire Hevs Hg. apply evaluate_ungrouped; try done.
  by destruct Hg as [-> | ->].
Qed.

Lemma evaluate_world
    self rule_id func_name field group_by comparison_op threshold timeframe
    current_event w w1 :
  expire self rule_id timeframe w = (Ok tt, w1) ->
  exists o,
    evaluate self rule_id func_name field group_by comparison_op threshold
             timeframe current_event w
    = (o, set_state self (events_touch rule_id (state_of self w1)) w1).
Proof.
  intros Hexpire.
  destruct (dd_read (events (state_of self w1)) rule_id) as [|e0 l] eqn:Hevs.
  { eexists. by apply evaluate_empty. }
  assert (Hne : dd_read (events (state_of self w1)) rule_id ≠ []) by by rewrite Hevs.
  destruct (str_truthy group_by) eqn:Hg.
  - destruct (keys_hashable (default EmptyString group_by)
                (dd_read (events (state_of self w1)) rule_id)) eqn:Hk.
    + destruct (event_truthy current_event) eqn:Hc.
      * destruct (hashable (group_key (default EmptyString group_by)
                              (default ∅ current_event))) eqn:Hh.
        -- eexists. by apply evaluate_triggered.
        -- eexists. by apply evaluate_unhashable_trigger.
      * eexists. by apply evaluate_fallback.
    + eexists. by apply evaluate_unhashable.
  - eexists. by apply evaluate_ungrouped.
Qed.

(** X9. [evaluate] records nothing and removes nothing besides what its
    expiry step removes: when it returns or raises, every history, in
    either store, is as [expire] left it, and the clock has been read as
    often as [expire] read it.  An exception of the expiry step is passed
    on. *)
Theorem evaluate_keeps_histories
    self rule_id func_name field group_by comparison_op threshold timeframe
    current_event w :
  let r := evaluate self rule_id func_name field group_by comparison_op threshold
                    timeframe current_event w in
  let x := expire self rule_id timeframe w in
  (forall self' rule_id',
     history (state_of self' r.2) rule_id' = history (state_of self' x.2) rule_id')
  /\ now_calls r.2 = now_calls x.2
  /\ (forall e, x.1 = Raise e -> r = (Raise e, x.2)).
Proof.
  intros r x. subst r x.
  destruct (expire self rule_id timeframe w) as [[[]|e] w1] eqn:Hexpire.
  - assert (Hw2 : forall o : outcome bool,
              (forall self' rule_id',
                 history (state_of self'
                            (o, set_state self (events_touch rule_id (state_of self w1)) w1).2)
                         rule_id'
                 = history (state_of self' (Ok tt, w1).2) rule_id')
              /\ now_calls (o, set_state self (events_touch rule_id (state_of self w1)) w1).2
                 = now_calls (Ok tt, w1).2
              /\ (forall e, (Ok tt, w1).1 = Raise e ->
                    (o, set_state self (events_touch rule_id (state_of self w1)) w1)
                    = (Raise e, (Ok tt, w1).2))).
    { intros o. cbn [fst snd]. split; [|split; [apply now_calls_set_state|done]].
      intros self' rule_id'. destruct (decide (self = self')) as [<-|Hne].
      - by rewrite state_of_set_state, history_events_touch.
      - by rewrite state_of_set_state_ne. }
    destruct (evaluate_world self rule_id func_name field group_by comparison_op threshold
                timeframe current_event w w1 Hexpire) as [o ->].
    apply Hw2.
  - assert (Hr : evaluate self rule_id func_name field group_by comparison_op threshold
                          timeframe current_event w = (Raise e, w1)).
    { unfold evaluate, bind. by rewrite Hexpire. }
    rewrite Hr. cbn [fst snd]. split; [done|]. split; [done|]. by intros e' [= ->].
Qed.

Lemma compared_count field comparison_op threshold selected :
  compared "count" field comparison_op threshold selected
  = Ok (_compare (float_of_len (length selected)) comparison_op threshold).
Proof. unfold compared, _compute_aggregation. by rewrite decide_True. Qed.

(** X10. A [count] aggregation raises nothing but TypeError once expiry
    has returned, whatever the field, the grouping and the triggering
    event are, and TypeError exactly when grouping is on, the retained
    history is not empty and a [group_by] value cannot be hashed: that of
    a retained event, or that of the triggering event when this is not the
    empty dict.  In every other case it returns a boolean; without
    grouping it compares the number of retained events with the
    threshold. *)
Theorem count_always_answers
    self rule_id field group_by comparison_op threshold timeframe current_event w w1 :
  expire self rule_id timeframe w = (Ok tt, w1) ->
  let evs := dd_read (events (state_of self w1)) rule_id in
  let g := default EmptyString group_by in
  let unhashable :=
    keys_hashable g evs = false
    \/ (event_truthy current_event = true
        /\ hashable (group_key g (default ∅ current_event)) = false) in
  exists r,
    evaluate self rule_id "count" field group_by comparison_op threshold
             timeframe current_event w
    = (r, set_state self (events_touch rule_id (state_of self w1)) w1)
    /\ (r = Raise TypeError \/ exists b, r = Ok b)
    /\ (r = Raise TypeError <-> str_truthy group_by = true /\ evs ≠ [] /\ unhashable)
    /\ (str_truthy group_by = false -> evs ≠ [] ->
        r = Ok (_compare (float_of_len (length evs)) comparison_op threshold)).
Proof.
  intros Hexpire evs g unhashable. subst unhashable.
  destruct evs as [|e0 l] eqn:Hevs.
  { exists (Ok false). split; [by apply evaluate_empty|].
    split; [right; by eexists|]. split; [|done]. split; [done|]. by intros (_ & ? & _). }
  assert (Hne : dd_read (events (state_of self w1)) rule_id ≠ []).
  { fold evs. by rewrite Hevs. }
  destruct (str_truthy group_by) eqn:Hg.
  - destruct (keys_hashable g (e0 :: l)) eqn:Hk.
    + assert (Hk' : keys_hashable (default EmptyString group_by)
                      (dd_read (events (state_of self w1)) rule_id) = true).
      { fold evs g. by rewrite Hevs. }
      destruct (event_truthy current_event) eqn:Hc.
      * destruct (hashable (group_key g (default ∅ current_event))) eqn:Hh.
        -- rewrite (evaluate_triggered _ _ _ _ _ _ _ _ _ _ _ Hexpire Hne Hg Hk' Hc Hh).
           assert (Hr : exists b,
                     match partition_of (default EmptyString group_by)
                             (group_key (default EmptyString group_by) (default ∅ current_event))
                             (dd_read (events (state_of self w1)) rule_id) with
                     | [] => Ok false
                     | part => compared "count" field comparison_op threshold part
                     end = Ok b).
           { destruct (partition_of _ _ _); [by eexists|].
             rewrite compared_count. by eexists. }
           destruct Hr as [b ->]. exists (Ok b). split; [done|].
           split; [right; by eexists|]. split; [|done]. split; [done|].
           by intros (_ & _ & [?|[_ ?]]).
        -- rewrite (evaluate_unhashable_trigger _ _ _ _ _ _ _ _ _ _ _
                      Hexpire Hne Hg Hk' Hc Hh).
           exists (Raise TypeError). split; [done|]. split; [by left|].
           split; [|done]. split; [|done]. intros _. split; [done|]. split; [done|].
           right. by split.
      * rewrite (evaluate_fallback _ _ _ _ _ _ _ _ _ _ _ Hexpire Hne Hg Hk' Hc).
        destruct (any_group_spec "count" field comparison_op threshold
                    (grouped (default EmptyString group_by)
                       (dd_read (events (state_of self w1)) rule_id))) as (b & Hb & _).
        { intros key part _. rewrite compared_count. by eexists. }
        rewrite Hb. exists (Ok b). split; [done|].
        split; [right; by eexists|]. split; [|done]. split; [done|].
        by intros (_ & _ & [?|[? _]]).
    + assert (Hk' : keys_hashable (default EmptyString group_by)
                      (dd_read (events (state_of self w1)) rule_id) = false).
      { fold evs g. by rewrite Hevs. }
      rewrite (evaluate_unhashable _ _ _ _ _ _ _ _ _ _ _ Hexpire Hne Hg Hk').
      exists (Raise TypeError). split; [done|]. split; [by left|].
      split; [|done]. split; [|done]. intros _. split; [done|]. split; [done|]. by left.
  - rewrite (evaluate_ungrouped _ _ _ _ _ _ _ _ _ _ _ Hexpire Hne Hg).
    fold evs. rewrite Hevs, compared_count.
    eexists. split; [done|]. split; [right; by eexists|]. split; [|done].
    split; [done|]. by intros (? & _).
Qed.

(** * Further properties of the compiled conditions *)

Lemma and_operation_all (signature : Signature) (event : Event) ts :
  Forall (fun t => forall a w, transform t signature event a w
                               = (Ok (holds signature event t), w)) ts ->
  forall a w, _and_operation (map transform ts) signature event a w
              = (Ok (forallb (holds signature event) ts), w).
Proof.
  induction 1 as [|t ts Ht _ IH]; intros a w; [done|].
  cbn [map _and_operation forallb]. unfold bind. rewrite Ht.
  destruct (holds signature event t); [apply IH|done].
Qed.

Lemma or_operation_any (signature : Signature) (event : Event) ts :
  Forall (fun t => forall a w, transform t signature event a w
                               = (Ok (holds signature event t), w)) ts ->
  forall a w, _or_operation (map transform ts) signature event a w
              = (Ok (existsb (holds signature event) ts), w).
Proof.
  induction 1 as [|t ts Ht _ IH]; intros a w; [done|].
  cbn [map _or_operation existsb]. unfold bind. rewrite Ht.
  destruct (holds signature event t); [done|apply IH].
Qed.

Lemma and_operation_all_verdict (signature : Signature) (event : Event) ts :
  Forall (fun t => forall a w, (transform t signature event a w).1
                               = Ok (holds signature event t)) ts ->
  forall a w, (_and_operation (map transform ts) signature event a w).1
              = Ok (forallb (holds signature event) ts).
Proof.
  induction 1 as [|t ts Ht _ IH]; intros a w; [done|].
  cbn [map _and_operation forallb]. unfold bind. specialize (Ht a w).
  destruct (transform t signature event a w) as [[r|e] w']; simpl in Ht; [|done].
  injection Ht as ->. destruct (holds signature event t); [apply IH|done].
Qed.

Lemma or_operation_any_verdict (signature : Signature) (event : Event) ts :
  Forall (fun t => forall a w, (transform t signature event a w).1
                               = Ok (holds signature event t)) ts ->
  forall a w, (_or_operation (map transform ts) signature event a w).1
              = Ok (existsb (holds signature event) ts).
Proof.
  induction 1 as [|t ts Ht _ IH]; intros a w; [done|].
  cbn [map _or_operation existsb]. unfold bind. specialize (Ht a w).
  destruct (transform t signature event a w) as [[r|e] w']; simpl in Ht; [|done].
  injection Ht as ->. destruct (holds signature event t); [done|apply IH].
Qed.

Lemma Forall_good (P : tree -> Prop) (good : tree -> bool) ts :
  Forall (fun t => good t = true -> P t) ts -> forallb good ts = true -> Forall P ts.
Proof.
  induction 1 as [|t ts Ht _ IH]; simpl; intros Hg; [constructor|].
  apply andb_prop in Hg as [? ?]. constructor; auto.
Qed.

Lemma and_rule_map ts :
  and_rule (map transform ts) =
    match ts with
    | [t] => transform t
    | _ => _and_operation (map transform ts)
    end.
Proof. by destruct ts as [|t [|t' ts]]. Qed.

Lemma or_rule_map ts :
  or_rule (map transform ts) =
    match ts with
    | [t] => transform t
    | _ => _or_operation (map transform ts)
    end.
Proof. by destruct ts as [|t [|t' ts]]. Qed.

(** A condition without [pipe_rule] nodes computes its formula and leaves
    the world as it is. *)
Lemma pipe_free_holds t :
  pipe_free t = true ->
  forall signature event a w,
    transform t signature event a w = (Ok (holds signature event t), w).
Proof.
  induction t using tree_induction; simpl; intros Hf signature event a w;
    try discriminate; try done.
  - by apply IHt.
  - destruct negate; simpl; [|by apply IHt]. unfold bind. by rewrite IHt.
  - pose proof (Forall_good _ pipe_free ts H Hf) as HF.
    assert (HF' : Forall (fun t => forall a w, transform t signature event a w
                                     = (Ok (holds signature event t), w)) ts).
    { eapply Forall_impl; [exact HF|]. intros t Ht. apply Ht. }
    rewrite and_rule_map. destruct ts as [|t [|t' ts]];
      try (by apply and_operation_all).
    inversion HF' as [|? ? Ht _]; subst. rewrite Ht. simpl. by rewrite andb_true_r.
  - pose proof (Forall_good _ pipe_free ts H Hf) as HF.
    assert (HF' : Forall (fun t => forall a w, transform t signature event a w
                                     = (Ok (holds signature event t), w)) ts).
    { eapply Forall_impl; [exact HF|]. intros t Ht. apply Ht. }
    rewrite or_rule_map. destruct ts as [|t [|t' ts]];
      try (by apply or_operation_any).
    inversion HF' as [|? ? Ht _]; subst. rewrite Ht. simpl. by rewrite orb_false_r.
Qed.

(** The verdict of a condition without an aggregation clause is the value
    of its formula. *)
Lemma aggregation_free_holds t :
  aggregation_free t = true ->
  forall signature event a w,
    (transform t signature event a w).1 = Ok (holds signature event t).
Proof.
  induction t using tree_induction; simpl; intros Hf signature event a w;
    try discriminate; try done.
  - by apply IHt.
  - destruct negate; simpl; [|by apply IHt]. unfold bind.
    specialize (IHt Hf signature event a w).
    destruct (transform t signature event a w) as [[r|e] w']; simpl in IHt; [|done].
    by injection IHt as ->.
  - pose proof (Forall_good _ aggregation_free ts H Hf) as HF.
    assert (HF' : Forall (fun t => forall a w, (transform t signature event a w).1
                                     = Ok (holds signature event t)) ts).
    { eapply Forall_impl; [exact HF|]. intros t Ht. apply Ht. }
    rewrite and_rule_map. destruct ts as [|t [|t' ts]];
      try (by apply and_operation_all_verdict).
    inversion HF' as [|? ? Ht _]; subst. rewrite Ht. simpl. by rewrite andb_true_r.
  - pose proof (Forall_good _ aggregation_free ts H Hf) as HF.
    assert (HF' : Forall (fun t => forall a w, (transform t signature event a w).1
                                     = Ok (holds signature event t)) ts).
    { eapply Forall_impl; [exact HF|]. intros t Ht. apply Ht. }
    rewrite or_rule_map. destruct ts as [|t [|t' ts]];
      try (by apply or_operation_any_verdict).
    inversion HF' as [|? ? Ht _]; subst. rewrite Ht. simpl. by rewrite orb_false_r.
  - rewrite pipe_with_aggregation_eq. specialize (IHt Hf signature event a w).
    destruct (transform t signature event a w) as [[[|]|e] w']; simpl in IHt; try done;
      by injection IHt as <-.
Qed.

(** X11. A compiled condition without an aggregation clause computes the
    propositional formula it is written as: [and] is conjunction, [or]
    disjunction, [not] negation, over the verdicts of the pattern matcher
    and the quantifier.  The verdict does not depend on the store argument
    or on what the stores hold.  When the condition has no [pipe_rule] node
    the world is left as it is. *)
Theorem compiled_condition_computes_formula t signature event a w :
  aggregation_free t = true ->
  (transform t signature event a w).1 = Ok (holds signature event t)
  /\ (pipe_free t = true ->
      transform t signature event a w = (Ok (holds signature event t), w)).
Proof.
  intros Hf. split; [by apply aggregation_free_holds|].
  intros Hp. by apply pipe_free_holds.
Qed.

Lemma and_operation_stops (signature : Signature) (event : Event) before p after a w w1 :
  Forall (fun t => pipe_free t = true /\ holds signature event t = true) before ->
  p signature event a w = (Ok false, w1) ->
  _and_operation (map transform before ++ p :: after) signature event a w = (Ok false, w1).
Proof.
  induction 1 as [|t ts [Hp Ht] _ IH]; intros Hfalse.
  - simpl. unfold bind. by rewrite Hfalse.
  - cbn [map app _and_operation]. unfold bind. rewrite (pipe_free_holds t Hp), Ht.
    by apply IH.
Qed.

Lemma or_operation_stops (signature : Signature) (event : Event) before p after a w w1 :
  Forall (fun t => pipe_free t = true /\ holds signature event t = false) before ->
  p signature event a w = (Ok true, w1) ->
  _or_operation (map transform before ++ p :: after) signature event a w = (Ok true, w1).
Proof.
  induction 1 as [|t ts [Hp Ht] _ IH]; intros Htrue.
  - simpl. unfold bind. by rewrite Htrue.
  - cbn [map app _or_operation]. unfold bind. rewrite (pipe_free_holds t Hp), Ht.
    by apply IH.
Qed.

(** X12. Conjunction and disjunction evaluate their components from left
    to right and stop at the first that decides: once a component of an
    [and] is false (of an [or]: true), the components after it are not
    evaluated, so that none of them records an event, reads the clock or
    raises.  The components before it are conditions without [pipe_rule]
    nodes here, which leave the world as it is. *)
Theorem connectives_short_circuit signature event before t after a w w1 :
  Forall (fun t => pipe_free t = true) before ->
  (Forall (fun t => holds signature event t = true) before ->
   transform t signature event a w = (Ok false, w1) ->
   transform (TAnd (before ++ t :: after)) signature event a w = (Ok false, w1))
  /\ (Forall (fun t => holds signature event t = false) before ->
      transform t signature event a w = (Ok true, w1) ->
      transform (TOr (before ++ t :: after)) signature event a w = (Ok true, w1)).
Proof.
  intros Hfree. split; intros Hval Hdec; cbn [transform].
  - assert (HF : Forall (fun t => pipe_free t = true /\ holds signature event t = true) before).
    { rewrite Forall_forall in *. auto. }
    rewrite and_rule_map.
    destruct (before ++ t :: after) as [|x [|y l]] eqn:E.
    + by destruct before.
    + destruct before as [|b [|b' before]]; try discriminate.
      by injection E as <- _.
    + rewrite <- E, map_app. cbn [map]. by apply and_operation_stops.
  - assert (HF : Forall (fun t => pipe_free t = true /\ holds signature event t = false) before).
    { rewrite Forall_forall in *. auto. }
    rewrite or_rule_map.
    destruct (before ++ t :: after) as [|x [|y l]] eqn:E.
    + by destruct before.
    + destruct before as [|b [|b' before]]; try discriminate.
      by injection E as <- _.
    + rewrite <- E, map_app. cbn [map]. by apply or_operation_stops.
Qed.

Lemma snoc_not_nil {A} (l : list A) x : l ++ [x] ≠ [].
Proof. by destruct l. Qed.

Lemma resolve_resolve a : resolve (Some (resolve a)) = resolve a.
Proof. done. Qed.

Lemma expire_no_timeframe self rule_id timeframe w :
  str_truthy timeframe = false -> expire self rule_id timeframe w = (Ok tt, w).
Proof. intros H. unfold expire. by rewrite H. Qed.

(** X13. A condition [base] without aggregation clause reaches [pipe_rule]
    as [[base, None]].  With a base without [pipe_rule] nodes the compiled
    predicate returns the value of the formula, and it appends the event
    to the rule's events exactly when that value is true; when it is false
    the world is left as it is. *)
Theorem plain_pipe_records_matches base signature event a w :
  pipe_free base = true ->
  let store := resolve a in
  let r := transform (TPipe base None) signature event a w in
  r.1 = Ok (holds signature event base)
  /\ dd_read (events (state_of store r.2)) (sig_id signature)
     = dd_read (events (state_of store w)) (sig_id signature)
       ++ (if holds signature event base then [event] else [])
  /\ (holds signature event base = false -> r.2 = w).
Proof.
  intros Hfree store r. subst store r. cbn [transform pipe_rule].
  rewrite pipe_with_aggregation_eq, (pipe_free_holds base Hfree).
  destruct (holds signature event base); cbn [fst snd].
  - rewrite add_event_events, decide_True by done. by repeat split.
  - rewrite app_nil_r. by repeat split.
Qed.

(** X14. [base | count(...) op N] on a rule without timeframe, with a base
    without [pipe_rule] nodes that matches: the event is appended to the
    rule's events and the verdict compares the number of the rule's events
    including this one with the threshold, where a threshold written [0]
    counts as [1].  The field of [count] plays no role. *)
Theorem piped_count_includes_current_event base field op v signature event a w :
  pipe_free base = true ->
  holds signature event base = true ->
  str_truthy (get_timeframe signature) = false ->
  let store := resolve a in
  let old := dd_read (events (state_of store w)) (sig_id signature) in
  let r := transform (TPipe base (Some (AggCall COUNT field None op v))) signature event a w in
  r.1 = Ok (_compare (float_of_len (S (length old))) (comparison_op op)
                     (if v =? 0 then 1 else v))
  /\ dd_read (events (state_of store r.2)) (sig_id signature) = old ++ [event].
Proof.
  intros Hfree Hholds Htf store old r. subst store old r.
  rewrite transform_pipe, pipe_with_aggregation_eq, (pipe_free_holds base Hfree), Hholds.
  cbn zeta. unfold aggregation_pred, aggregation_expression. rewrite resolve_resolve.
  set (w1 := (add_event (resolve a) (sig_id signature) event "UtcTime" w).2).
  assert (Hevs : dd_read (events (state_of (resolve a) w1)) (sig_id signature)
                 = dd_read (events (state_of (resolve a) w)) (sig_id signature) ++ [event]).
  { subst w1. by rewrite add_event_events, decide_True. }
  rewrite (evaluate_ungrouped _ _ _ _ _ _ _ _ _ _ w1 (expire_no_timeframe _ _ _ _ Htf));
    [|rewrite Hevs; apply snoc_not_nil|done].
  cbn [fst snd aggregation_function]. rewrite compared_count, Hevs.
  rewrite state_of_set_state. cbn [events events_touch]. rewrite dd_read_touch, Hevs.
  rewrite length_app. cbn [length]. by rewrite Nat.add_1_r.
Qed.

Lemma partition_of_snoc group_by (event : Event) events :
  partition_of group_by (event_get event group_by) (events ++ [event])
  = partition_of group_by (event_get event group_by) events ++ [event].
Proof.
  unfold partition_of. rewrite List.filter_app. cbn [List.filter].
  by rewrite bool_decide_eq_true_2.
Qed.

(** X15. [base | count() by g op N] on a rule without timeframe, with a
    base without [pipe_rule] nodes that matches an event other than the
    empty dict.  The event is appended to the rule's events.  When the [g]
    values of the rule's events, this one included, can be hashed, the
    verdict compares, with the threshold, the number of the rule's events
    that have the current event's value of [g], the current event
    included.  When one of them cannot be hashed (it is a list or a
    dict), the predicate raises TypeError. *)
Theorem piped_grouped_count_counts_own_group base field g op v signature event a w :
  pipe_free base = true ->
  holds signature event base = true ->
  str_truthy (get_timeframe signature) = false ->
  g ≠ EmptyString ->
  event ≠ ∅ ->
  let store := resolve a in
  let old := dd_read (events (state_of store w)) (sig_id signature) in
  let r := transform (TPipe base (Some (AggCall COUNT field (Some g) op v)))
                     signature event a w in
  r.1 = (if keys_hashable g (old ++ [event])
         then Ok (_compare
                    (float_of_len (S (length (partition_of g (event_get event g) old))))
                    (comparison_op op) (if v =? 0 then 1 else v))
         else Raise TypeError)
  /\ dd_read (events (state_of store r.2)) (sig_id signature) = old ++ [event].
Proof.
  intros Hfree Hholds Htf Hg Hev store old r. subst store old r.
  rewrite transform_pipe, pipe_with_aggregation_eq, (pipe_free_holds base Hfree), Hholds.
  cbn zeta. unfold aggregation_pred, aggregation_expression. rewrite resolve_resolve.
  set (w1 := (add_event (resolve a) (sig_id signature) event "UtcTime" w).2).
  assert (Hevs : dd_read (events (state_of (resolve a) w1)) (sig_id signature)
                 = dd_read (events (state_of (resolve a) w)) (sig_id signature) ++ [event]).
  { subst w1. by rewrite add_event_events, decide_True. }
  assert (Hne : dd_read (events (state_of (resolve a) w1)) (sig_id signature) ≠ []).
  { rewrite Hevs. apply snoc_not_nil. }
  destruct (keys_hashable g
              (dd_read (events (state_of (resolve a) w)) (sig_id signature) ++ [event]))
    eqn:Hk.
  - assert (Hh : hashable (group_key g event) = true).
    { unfold keys_hashable in Hk. rewrite forallb_app in Hk.
      apply andb_prop in Hk as [_ Hk]. simpl in Hk. by rewrite andb_true_r in Hk. }
    rewrite (evaluate_triggered _ _ _ _ _ _ _ _ _ _ w1 (expire_no_timeframe _ _ _ _ Htf));
      [|done|by apply str_truthy_Some|by rewrite Hevs|by apply event_truthy_Some|done].
    cbn [fst snd aggregation_function default from_option]. unfold id, group_key.
    rewrite Hevs, partition_of_snoc.
    rewrite state_of_set_state. cbn [events events_touch]. rewrite dd_read_touch, Hevs.
    split; [|done].
    destruct (partition_of g (event_get event g)
                (dd_read (events (state_of (resolve a) w)) (sig_id signature)) ++ [event])
      as [|x part] eqn:E.
    { by apply snoc_not_nil in E. }
    rewrite compared_count, <- E, length_app. cbn [length]. by rewrite Nat.add_1_r.
  - rewrite (evaluate_unhashable _ _ _ _ _ _ _ _ _ _ w1 (expire_no_timeframe _ _ _ _ Htf));
      [|done|by apply str_truthy_Some|by rewrite Hevs].
    cbn [fst snd]. split; [done|].
    rewrite state_of_set_state. cbn [events events_touch]. by rewrite dd_read_touch, Hevs.
Qed.

(** X16. A [near] clause forwards the verdict of its inner condition:
    [base | near cond], with conditions without [pipe_rule] nodes, has the
    value of [base and cond], and the event is appended to the rule's
    events exactly when the base is true. *)
Theorem near_clause_forwards base condition signature event a w :
  pipe_free base = true ->
  pipe_free condition = true ->
  let store := resolve a in
  let r := transform (TPipe base (Some (AggNear condition))) signature event a w in
  r.1 = Ok (holds signature event base && holds signature event condition)
  /\ dd_read (events (state_of store r.2)) (sig_id signature)
     = dd_read (events (state_of store w)) (sig_id signature)
       ++ (if holds signature event base then [event] else []).
Proof.
  intros Hbase Hcond store r. subst store r.
  rewrite transform_pipe, pipe_with_aggregation_eq, (pipe_free_holds base Hbase).
  destruct (holds signature event base); cbn [fst snd andb].
  - cbn zeta. unfold aggregation_pred, near_aggregation.
    rewrite (pipe_free_holds condition Hcond). cbn [fst snd].
    by rewrite add_event_events, decide_True.
  - by rewrite app_nil_r.
Qed.

Lemma other_store_ne self : self ≠ other_store self.
Proof. by destruct self. Qed.

Lemma add_event_other self rule_id event timestamp_field w :
  state_of (other_store self) (add_event self rule_id event timestamp_field w).2
  = state_of (other_store self) w.
Proof.
  destruct (add_event_spec self rule_id event timestamp_field w) as (ts & w0 & Hw0 & ->).
  cbn [snd]. rewrite state_of_set_state_ne by apply other_store_ne.
  destruct Hw0 as [->| ->]; by rewrite ?state_of_tick.
Qed.

Lemma cleanup_other self rule_id timeframe w :
  state_of (other_store self) (cleanup_old_events self rule_id timeframe w).2
  = state_of (other_store self) w.
Proof.
  destruct (cleanup_old_events_run self rule_id timeframe w); cbn [snd];
    rewrite ?state_of_set_state_ne by apply other_store_ne;
    by rewrite ?state_of_tick.
Qed.

Lemma evaluate_other self rule_id func_name field group_by comparison_op threshold
    timeframe current_event w :
  state_of (other_store self)
    (evaluate self rule_id func_name field group_by comparison_op threshold
              timeframe current_event w).2
  = state_of (other_store self) w.
Proof.
  assert (Hx : state_of (other_store self) (expire self rule_id timeframe w).2
               = state_of (other_store self) w).
  { unfold expire. destruct (str_truthy timeframe); [apply cleanup_other|done]. }
  destruct (expire self rule_id timeframe w) as [[[]|e] w1] eqn:Hexpire; cbn [snd] in Hx.
  - destruct (evaluate_world self rule_id func_name field group_by comparison_op threshold
                timeframe current_event w w1 Hexpire) as [o ->].
    cbn [snd]. by rewrite state_of_set_state_ne by apply other_store_ne.
  - unfold evaluate, bind. by rewrite Hexpire.
Qed.

(** X17. A compiled condition works on one store object only: the one it
    is given, or the singleton when it is given none.  Whatever the
    condition is, aggregation clauses included, and however the call ends,
    the other store object is as it was. *)
Theorem other_store_untouched t signature event a w :
  state_of (other_store (resolve a)) (transform t signature event a w).2
  = state_of (other_store (resolve a)) w.
Proof.
  revert signature event a w.
  induction t using tree_induction; intros signature event a w; cbn [transform].
  - done.
  - done.
  - apply IHt.
  - destruct negate; [|apply IHt]. simpl. unfold bind. specialize (IHt signature event a w).
    by destruct (transform t signature event a w) as [[r|e] w'].
  - rewrite and_rule_map.
    assert (Hop : forall l w, Forall (fun t => forall signature event a w,
                      state_of (other_store (resolve a)) (transform t signature event a w).2
                      = state_of (other_store (resolve a)) w) l ->
                    state_of (other_store (resolve a))
                      (_and_operation (map transform l) signature event a w).2
                    = state_of (other_store (resolve a)) w).
    { intros l w0 Hl. revert w0. induction Hl as [|x l Hx _ IHl]; intros w0; [done|].
      cbn [map _and_operation]. unfold bind. specialize (Hx signature event a w0).
      destruct (transform x signature event a w0) as [[[|]|e] w']; cbn [snd] in *;
        [|done..]. by rewrite IHl. }
    destruct ts as [|x [|y l]]; try (by apply Hop).
    inversion H; subst. auto.
  - rewrite or_rule_map.
    assert (Hop : forall l w, Forall (fun t => forall signature event a w,
                      state_of (other_store (resolve a)) (transform t signature event a w).2
                      = state_of (other_store (resolve a)) w) l ->
                    state_of (other_store (resolve a))
                      (_or_operation (map transform l) signature event a w).2
                    = state_of (other_store (resolve a)) w).
    { intros l w0 Hl. revert w0. induction Hl as [|x l Hx _ IHl]; intros w0; [done|].
      cbn [map _or_operation]. unfold bind. specialize (Hx signature event a w0).
      destruct (transform x signature event a w0) as [[[|]|e] w']; cbn [snd] in *;
        [done| |done]. by rewrite IHl. }
    destruct ts as [|x [|y l]]; try (by apply Hop).
    inversion H; subst. auto.
  - cbn [pipe_rule]. rewrite pipe_with_aggregation_eq.
    specialize (IHt signature event a w).
    destruct (transform t signature event a w) as [[[|]|e] w']; cbn [snd] in *; try done.
    by rewrite add_event_other.
  - cbn [pipe_rule]. rewrite pipe_with_aggregation_eq.
    specialize (IHt signature event a w).
    destruct (transform t signature event a w) as [[[|]|e] w']; cbn [snd] in *; try done.
    cbn zeta. unfold aggregation_expression. rewrite resolve_resolve.
    by rewrite evaluate_other, add_event_other.
  - cbn [pipe_rule]. rewrite pipe_with_aggregation_eq.
    specialize (IHt1 signature event a w).
    destruct (transform t1 signature event a w) as [[[|]|e] w']; cbn [snd] in *; try done.
    cbn zeta. unfold near_aggregation.
    pose proof (IHt2 signature event (Some (resolve a))
                  (add_event (resolve a) (sig_id signature) event "UtcTime" w').2) as H2.
    rewrite resolve_resolve in H2. by rewrite H2, add_event_other.
Qed.

(** * How expiry composes *)








Lemma add_event_has_timestamps self rule_id event timestamp_field w :
  timestamps (state_of self (add_event self rule_id event timestamp_field w).2) !! rule_id
  ≠ None.
Proof.
  destruct (add_event_spec self rule_id event timestamp_field w) as (ts & w0 & _ & ->).
  cbn [snd]. rewrite state_of_set_state. simpl. unfold dd_append.
  by rewrite lookup_insert_eq.
Qed.

(** X20. When the timeframe of the rule makes [_parse_timeframe] raise,
    [base | aggregation] raises that exception on every event the base
    matches, and the event has been recorded all the same: the rule's
    events have grown by it. *)
Theorem bad_timeframe_raises_after_recording
    base f field g op v signature event a w timeframe e :
  pipe_free base = true ->
  holds signature event base = true ->
  get_timeframe signature = Some timeframe ->
  _parse_timeframe timeframe = Raise e ->
  let r := transform (TPipe base (Some (AggCall f field g op v))) signature event a w in
  r.1 = Raise e
  /\ dd_read (events (state_of (resolve a) r.2)) (sig_id signature)
     = dd_read (events (state_of (resolve a) w)) (sig_id signature) ++ [event].
Proof.
  intros Hfree Hholds Htf Hp r. subst r.
  rewrite transform_pipe, pipe_with_aggregation_eq, (pipe_free_holds base Hfree), Hholds.
  cbn zeta. unfold aggregation_pred, aggregation_expression. rewrite resolve_resolve, Htf.
  assert (Hne : timeframe ≠ EmptyString).
  { intros ->. by rewrite parse_timeframe_empty in Hp. }
  unfold evaluate, bind, expire, str_truthy. rewrite decide_False by done.
  cbn [default from_option]. unfold id.
  rewrite (cleanup_bad_timeframe_eq _ _ _ _ e Hne (add_event_has_timestamps _ _ _ _ _) Hp).
  cbn [fst snd]. split; [done|].
  by rewrite add_event_events, decide_True.
Qed.

(** ** More small facts for concrete inputs *)

Lemma option_is_none {A} (o : option A) :
  match o with Some _ => false | None => true end = true -> o = None.
Proof. by destruct o. Qed.



End Properties.


(** * The engine at work

    The scenarios of the test suite, replayed on the model, and the
    theorems above at concrete inputs. *)

Import Py64 Demo.

Example int_accepts :
  [py_int " 5_0 "; py_int "-12"; py_int "+7"; py_int "007"] = [Some 50; Some (-12); Some 7; Some 7].
Proof. run. Qed.

Example int_rejects :
  [py_int "x"; py_int ""; py_int "1__0"; py_int "+ 1"; py_int "_1"; py_int "1_"; py_int "1.5"]
  = [None; None; None; None; None; None; None].
Proof. run. Qed.

Example parse_timeframe_examples :
  [_parse_timeframe "30s"; _parse_timeframe " 2h "; _parse_timeframe "1M";
   _parse_timeframe "15"; _parse_timeframe "   "; _parse_timeframe "5w";
   _parse_timeframe "xs"; _parse_timeframe "s"; _parse_timeframe "1000000000d"]
  = [Ok (Some 30000000); Ok (Some 7200000000); Ok (Some 2592000000000);
     Ok None; Ok None; Ok None;
     Raise ValueError; Raise ValueError; Raise OverflowError].
Proof. run. Qed.

Example float_of_int_examples :
  float_of_int 5 = Some (float_of_Z 5)
  /\ float_of_int (2 ^ 1024) = None
  /\ float_of_int (10 ^ 400) = None.
Proof. split; [run|]. split; run. Qed.

Example count_gt_3 :
  verdicts r1 (transform (piped COUNT None None GT 3)) (replicate 4 ev_new) empty_world
  = [Ok false; Ok false; Ok false; Ok true].
Proof. run. Qed.

Example count_by_src_ip_gt_2 :
  verdicts r1 (transform (piped COUNT None (Some "src_ip") GT 2))
           [ev_ip1; ev_ip1; ev_ip1; ev_ip2] empty_world
  = [Ok false; Ok false; Ok true; Ok false].
Proof. run. Qed.

Example sum_bytes_gt_1000 :
  verdicts r1 (transform (piped SUM (Some "bytes") None GT 1000))
           [ev_with "bytes" (VInt 400); ev_with "bytes" (VInt 400); ev_with "bytes" (VInt 300)]
           empty_world
  = [Ok false; Ok false; Ok true].
Proof. run. Qed.

Example max_response_time_gt_100 :
  verdicts r1 (transform (piped MAX (Some "response_time") None GT 100))
           [ev_with "response_time" (VInt 50); ev_with "response_time" (VInt 80);
            ev_with "response_time" (VInt 120)] empty_world
  = [Ok false; Ok false; Ok true].
Proof. run. Qed.

Example avg_score_gt_75 :
  verdicts r1 (transform (piped AVG (Some "score") None GT 75))
           [ev_with "score" (VInt 70); ev_with "score" (VInt 80); ev_with "score" (VInt 90)]
           empty_world
  = [Ok false; Ok false; Ok true].
Proof. run. Qed.

Example min_response_time_lt_20 :
  verdicts r1 (transform (piped MIN (Some "response_time") None LT 20))
           [ev_with "response_time" (VInt 50); ev_with "response_time" (VInt 30);
            ev_with "response_time" (VInt 10)] empty_world
  = [Ok false; Ok false; Ok true].
Proof. run. Qed.

Example count_lt_3 :
  verdicts r1 (transform (piped COUNT None None LT 3)) (replicate 3 ev_new) empty_world
  = [Ok true; Ok true; Ok false].
Proof. run. Qed.

Example count_eq_2 :
  verdicts r1 (transform (piped COUNT None None EQ 2)) (replicate 3 ev_new) empty_world
  = [Ok false; Ok true; Ok false].
Proof. run. Qed.

(** C1, as stated, fails: the base [(selection | count() > 5)] is false on
    the first matching event, the condition
    [(selection | count() > 5) | count() > 1] returns [False], and the
    store, which held nothing for the rule, now holds one event. *)
Lemma pipe_base_false_store_changed :
  let p := transform (TPipe nested (Some (AggCall COUNT None None GT 1))) in
  let held w := length (dd_read (events (global_state w)) "rule-1") in
  (transform nested r1 ev_new None empty_world).1 = Ok false
  /\ (p r1 ev_new None empty_world).1 = Ok false
  /\ held empty_world = 0%nat
  /\ held (p r1 ev_new None empty_world).2 = 1%nat
  /\ (p r1 ev_new None empty_world).2 ≠ empty_world.
Proof.
  intros p held. split; [run|]. split; [run|]. split; [run|]. split; [run|].
  intros H. apply (f_equal held) in H. vm_compute in H. discriminate H.
Qed.

(** C1 at a concrete input: a base without [pipe_rule] nodes that does not
    match leaves the world as it was. *)
Lemma pipe_is_two_phase_witness :
  pipe_free (sel "other") = true
  /\ (transform (sel "other") r1 ev_new None w_two).1 = Ok false
  /\ transform (TPipe (sel "other") (Some (AggCall COUNT None None GT 1))) r1 ev_new None w_two
     = (Ok false, w_two).
Proof.
  split; [run|]. split; [run|].
  apply (proj2 (pipe_is_two_phase (CO := demo_collaborators) (sel "other")
                  (AggCall COUNT None None GT 1) r1 ev_new None w_two)); run.
Defined.

(** C2 at a concrete input: the only retained event is older than the
    timeframe, the history is empty after expiry, and [count() < 3] is
    false. *)
Lemma empty_history_is_false_witness :
  let w1 := (expire GlobalStore "rule-1" (Some "30s") w_old).2 in
  expire GlobalStore "rule-1" (Some "30s") w_old = (Ok tt, w1)
  /\ dd_read (events (state_of GlobalStore w1)) "rule-1" = []
  /\ (evaluate GlobalStore "rule-1" "count" None None "<" 3 (Some "30s") None w_old).1
     = Ok false.
Proof.
  intros w1.
  assert (H1 : expire GlobalStore "rule-1" (Some "30s") w_old = (Ok tt, w1))
    by (apply pair_eta; run).
  assert (H2 : dd_read (events (state_of GlobalStore w1)) "rule-1" = [])
    by (apply length_zero_nil; run).
  split; [exact H1|]. split; [exact H2|].
  rewrite (empty_history_is_false GlobalStore "rule-1" "count" None None "<" 3
             (Some "30s") None w_old w1 H1 H2).
  reflexivity.
Defined.

(** C3: the code raises.  A rule with two recorded events and the
    timeframe [xs]: the suffix is known, [int('x')] raises ValueError, and
    [cleanup_old_events] lets it through, leaving the store as it was. *)
Lemma cleanup_raises_on_non_numeric_prefix :
  length (dd_read (timestamps (global_state w_two)) "rule-1") = 2%nat
  /\ py_int "x" = None
  /\ _parse_timeframe "xs" = Raise ValueError
  /\ cleanup_old_events GlobalStore "rule-1" "xs" w_two = (Raise ValueError, w_two).
Proof.
  assert (H : length (dd_read (timestamps (global_state w_two)) "rule-1") = 2%nat) by run.
  split; [exact H|]. split; [run|]. split; [run|].
  apply cleanup_bad_timeframe_eq; [discriminate | | run].
  exact (dd_read_length_has_key _ _ _ H).
Qed.

(** C4, as stated, fails: the triggering event is the empty dict, its key
    is [None], and no retained event has that key, in the history [[a]] as
    in the history [[a; a]]; yet [count() by src_ip > 1] is false on the
    first and true on the second: the partition of [a] is not ignored. *)
Lemma empty_trigger_scans_other_partitions :
  let verdict evs := (evaluate GlobalStore "rule-1" "count" None (Some "src_ip") ">" 1 None
                               (Some ∅) (recorded evs)).1 in
  let of_trigger evs := length (partition_of "src_ip" (event_get ∅ "src_ip") evs) in
  of_trigger [ev_ip1] = 0%nat
  /\ of_trigger [ev_ip1; ev_ip1] = 0%nat
  /\ verdict [ev_ip1] = Ok false
  /\ verdict [ev_ip1; ev_ip1] = Ok true.
Proof. intros verdict of_trigger. split; [run|]. split; [run|]. split; run. Qed.

(** C4 at a concrete input: two events from one address and one from
    another.  A trigger is judged on its own partition, a trigger whose
    address is a list raises TypeError, and without trigger some partition
    satisfies the comparison.  With a retained event whose address is a
    list, every call raises TypeError. *)
Lemma grouped_evaluation_witness :
  let w := recorded [ev_ip1; ev_ip2; ev_ip1] in
  let w' := recorded [ev_ip1; ev_ips] in
  let run := evaluate GlobalStore "rule-1" "count" None (Some "src_ip") ">" 1 None in
  expire GlobalStore "rule-1" None w = (Ok tt, w)
  /\ "src_ip" ≠ EmptyString
  /\ dd_read (events (state_of GlobalStore w)) "rule-1" ≠ []
  /\ keys_hashable "src_ip" (dd_read (events (state_of GlobalStore w)) "rule-1") = true
  /\ (run (Some ev_ip1) w).1 = Ok true
  /\ (run (Some ev_ip2) w).1 = Ok false
  /\ (run (Some ev_ips) w).1 = Raise TypeError
  /\ (run None w).1 = Ok true
  /\ keys_hashable "src_ip" (dd_read (events (state_of GlobalStore w')) "rule-1") = false
  /\ (run (Some ev_ip1) w').1 = Raise TypeError
  /\ (run None w').1 = Raise TypeError.
Proof.
  intros w w' run.
  assert (H1 : expire GlobalStore "rule-1" None w = (Ok tt, w)) by reflexivity.
  assert (H2 : "src_ip" ≠ EmptyString) by discriminate.
  assert (H3 : dd_read (events (state_of GlobalStore w)) "rule-1" ≠ [])
    by (apply (length_pos_not_nil _ 2); run).
  assert (H4 : keys_hashable "src_ip" (dd_read (events (state_of GlobalStore w)) "rule-1")
               = true) by run.
  assert (E1 : ev_ip1 ≠ ∅) by (apply (truthy_field_not_empty _ "src_ip"); run).
  assert (E2 : ev_ip2 ≠ ∅) by (apply (truthy_field_not_empty _ "src_ip"); run).
  assert (E3 : ev_ips ≠ ∅) by (apply (truthy_field_not_empty _ "src_ip"); run).
  split; [exact H1|]. split; [exact H2|]. split; [exact H3|]. split; [exact H4|].
  destruct (grouped_evaluation GlobalStore "rule-1" "count" None "src_ip" ">" 1 None w w
              H1 H2 H3) as (Hhashed & _).
  destruct (Hhashed H4) as (_ & _ & Htrigger & Hlist & Hscan).
  split; [subst run; rewrite (Htrigger ev_ip1 E1); run|].
  split; [subst run; rewrite (Htrigger ev_ip2 E2); run|].
  split; [subst run; rewrite (Hlist ev_ips E3); run|].
  split.
  { destruct (Hscan None eq_refl) as (b & Hb & Hiff).
    - intros key _. rewrite compared_count. by eexists.
    - subst run. rewrite Hb. cbn [fst]. f_equal. apply Hiff.
      exists (xs 1). split; [apply (length_pos_not_nil _ 1)|]; run. }
  assert (H1' : expire GlobalStore "rule-1" None w' = (Ok tt, w')) by reflexivity.
  assert (H3' : dd_read (events (state_of GlobalStore w')) "rule-1" ≠ [])
    by (apply (length_pos_not_nil _ 1); run).
  assert (H4' : keys_hashable "src_ip" (dd_read (events (state_of GlobalStore w')) "rule-1")
                = false) by run.
  split; [exact H4'|].
  destruct (grouped_evaluation GlobalStore "rule-1" "count" None "src_ip" ">" 1 None w' w'
              H1' H2 H3') as (_ & Hraise).
  subst run. by rewrite !(Hraise H4').
Defined.

(** C5 at a concrete input: the empty world, and one event added. *)
Lemma store_sequences_coindexed_witness :
  store_inv empty_world
  /\ store_inv (add_event GlobalStore "rule-1" ev_new "UtcTime" empty_world).2.
Proof.
  assert (H : store_inv empty_world) by apply store_inv_initial.
  split; [exact H|].
  destruct store_sequences_coindexed as [_ Hops].
  destruct (Hops empty_world H) as (Hadd & _).
  apply (Hadd GlobalStore "rule-1" ev_new "UtcTime").
Defined.

(** C6: the code raises.  Three events with [bytes] 400, 10^400 and 300:
    [float(10**400)] raises OverflowError, which the loop does not catch,
    and the sum is not computed; without the second event it is 700. *)
Lemma sum_aborts_on_huge_int :
  py_float (VInt (10 ^ 400)) = Raise OverflowError
  /\ _compute_aggregation "sum" (Some "bytes")
       [ev_with "bytes" (VInt 400); ev_with "bytes" (VInt (10 ^ 400));
        ev_with "bytes" (VInt 300)]
     = Raise OverflowError
  /\ _compute_aggregation "sum" (Some "bytes")
       [ev_with "bytes" (VInt 400); ev_with "bytes" (VInt 300)]
     = Ok (float_of_Z 700).
Proof. split; [run|]. split; run. Qed.



(** C8 at a concrete input: the clock stands still, and a second cleanup
    changes nothing. *)
Lemma cleanup_idempotent_witness :
  wall_clock (S (now_calls w_two)) = wall_clock (now_calls w_two)
  /\ let once := cleanup_old_events GlobalStore "rule-1" "30s" w_two in
     let twice := cleanup_old_events GlobalStore "rule-1" "30s" once.2 in
     twice.1 = once.1 /\ forall self', state_of self' twice.2 = state_of self' once.2.
Proof.
  split; [run|].
  apply (cleanup_idempotent GlobalStore "rule-1" "30s" w_two). run.
Defined.

(** C9: the code records the event.  The condition text [selection] has
    no aggregation clause; its parse tree is a [pipe_rule] node whose
    second child is absent, so the callback gets [[base, None]].  On a
    matching event the compiled predicate returns [True], and the store,
    which held nothing for the rule, now holds one event. *)
Lemma plain_condition_records_event :
  let p := transform (TPipe (sel "selection") None) in
  let held w := length (dd_read (events (global_state w)) "rule-1") in
  aggregation_free (TPipe (sel "selection") None) = true
  /\ (p r1 ev_new None empty_world).1 = Ok true
  /\ held empty_world = 0%nat
  /\ held (p r1 ev_new None empty_world).2 = 1%nat
  /\ (p r1 ev_new None empty_world).2 ≠ empty_world.
Proof.
  intros p held. split; [run|]. split; [run|]. split; [run|]. split; [run|].
  intros H. apply (f_equal held) in H. vm_compute in H. discriminate H.
Qed.

(** C10, as stated, fails: the triggering event is the empty dict, no
    retained event has its key [None], and [count() by src_ip < 5]
    returns [True]. *)
Lemma empty_trigger_with_empty_partition_is_true :
  (forall event, event ∈ dd_read (events (global_state (recorded [ev_ip1]))) "rule-1" ->
     event_get event "src_ip" ≠ event_get ∅ "src_ip")
  /\ (evaluate GlobalStore "rule-1" "count" None (Some "src_ip") "<" 5 None (Some ∅)
               (recorded [ev_ip1])).1 = Ok true.
Proof. split; [apply partition_empty_no_key|]; run. Qed.

(** C10 at a concrete input: the trigger comes from an address that no
    retained event has. *)
Lemma trigger_partition_empty_is_false_witness :
  let w := recorded [ev_ip1; ev_ip1] in
  expire GlobalStore "rule-1" None w = (Ok tt, w)
  /\ ev_ip2 ≠ ∅
  /\ keys_hashable "src_ip" (dd_read (events (state_of GlobalStore w)) "rule-1") = true
  /\ hashable (group_key "src_ip" ev_ip2) = true
  /\ (forall event, event ∈ dd_read (events (state_of GlobalStore w)) "rule-1" ->
        group_key "src_ip" event ≠ group_key "src_ip" ev_ip2)
  /\ (evaluate GlobalStore "rule-1" "count" None (Some "src_ip") "<" 5 None (Some ev_ip2) w).1
     = Ok false.
Proof.
  intros w.
  assert (H1 : expire GlobalStore "rule-1" None w = (Ok tt, w)) by reflexivity.
  assert (H2 : "src_ip" ≠ EmptyString) by discriminate.
  assert (H3 : ev_ip2 ≠ ∅) by (apply (truthy_field_not_empty _ "src_ip"); run).
  assert (H4 : keys_hashable "src_ip" (dd_read (events (state_of GlobalStore w)) "rule-1")
               = true) by run.
  assert (H5 : hashable (group_key "src_ip" ev_ip2) = true) by run.
  assert (H6 : forall event, event ∈ dd_read (events (state_of GlobalStore w)) "rule-1" ->
                 group_key "src_ip" event ≠ group_key "src_ip" ev_ip2)
    by (apply partition_empty_no_key; run).
  split; [exact H1|]. split; [exact H3|]. split; [exact H4|]. split; [exact H5|].
  split; [exact H6|].
  rewrite (trigger_partition_empty_is_false GlobalStore "rule-1" "count" None "src_ip"
             "<" 5 None ev_ip2 w w H1 H2 H3 H4 H5 H6).
  reflexivity.
Defined.

Lemma evaluate_without_history_witness :
  timestamps (state_of GlobalStore w_two) !! "rule-9" = None
  /\ dd_read (events (state_of GlobalStore w_two)) "rule-9" = []
  /\ (evaluate GlobalStore "rule-9" "sum" (Some "bytes") None "<" 3 (Some "xs")
               (Some ev_new) w_two).1 = Ok false.
Proof.
  assert (H1 : timestamps (state_of GlobalStore w_two) !! "rule-9" = None)
    by (apply option_is_none; run).
  assert (H2 : dd_read (events (state_of GlobalStore w_two)) "rule-9" = [])
    by (apply length_zero_nil; run).
  split; [exact H1|]. split; [exact H2|].
  by rewrite (evaluate_without_history GlobalStore "rule-9" "sum" (Some "bytes") None "<" 3
                (Some "xs") (Some ev_new) w_two H1 H2).
Defined.

Lemma failed_cleanup_keeps_histories_witness :
  (cleanup_old_events GlobalStore "rule-1" "xs" w_two).1 = Raise ValueError
  /\ forall self' rule_id',
       history (state_of self' (cleanup_old_events GlobalStore "rule-1" "xs" w_two).2) rule_id'
       = history (state_of self' w_two) rule_id'.
Proof.
  assert (H : (cleanup_old_events GlobalStore "rule-1" "xs" w_two).1 = Raise ValueError)
    by run.
  split; [exact H|].
  exact (failed_cleanup_keeps_histories GlobalStore "rule-1" "xs" w_two ValueError H).
Defined.

Lemma ungrouped_evaluation_witness :
  let w := recorded [ev_with "bytes" (VInt 400); ev_with "bytes" (VInt 400);
                     ev_with "bytes" (VInt 300)] in
  expire GlobalStore "rule-1" None w = (Ok tt, w)
  /\ dd_read (events (state_of GlobalStore w)) "rule-1" ≠ []
  /\ (evaluate GlobalStore "rule-1" "sum" (Some "bytes") None ">" 1000 None None w).1
     = Ok true.
Proof.
  intros w.
  assert (H1 : expire GlobalStore "rule-1" None w = (Ok tt, w)) by reflexivity.
  assert (H2 : dd_read (events (state_of GlobalStore w)) "rule-1" ≠ [])
    by (apply (length_pos_not_nil _ 2); run).
  split; [exact H1|]. split; [exact H2|].
  rewrite (ungrouped_evaluation GlobalStore "rule-1" "sum" (Some "bytes") None ">" 1000
             None None w w H1 H2 (or_introl eq_refl)).
  run.
Defined.

Lemma count_always_answers_witness :
  let w := recorded [ev_ip1; ev_ips] in
  expire GlobalStore "rule-1" None w = (Ok tt, w)
  /\ (evaluate GlobalStore "rule-1" "count" (Some "bytes") None "=" 2 None
                (Some ev_ip1) w).1 = Ok true
  /\ (evaluate GlobalStore "rule-1" "count" (Some "bytes") (Some "src_ip") "=" 2 None
                (Some ev_ip1) w).1 = Raise TypeError.
Proof.
  intros w.
  assert (H : expire GlobalStore "rule-1" None w = (Ok tt, w)) by reflexivity.
  assert (Hne : dd_read (events (state_of GlobalStore w)) "rule-1" ≠ [])
    by (apply (length_pos_not_nil _ 1); run).
  split; [exact H|]. split.
  - destruct (count_always_answers GlobalStore "rule-1" (Some "bytes") None "=" 2
                None (Some ev_ip1) w w H) as (r & Hr & _ & _ & Hcount).
    rewrite Hr, (Hcount eq_refl Hne). run.
  - destruct (count_always_answers GlobalStore "rule-1" (Some "bytes") (Some "src_ip") "=" 2
                None (Some ev_ip1) w w H) as (r & Hr & _ & Hraise & _).
    rewrite Hr. apply Hraise. split; [reflexivity|]. split; [exact Hne|]. left. run.
Defined.

Lemma compiled_condition_computes_formula_witness :
  let t := TPipe (TOr [TAnd [TNot false (TAtom (TSearchId "selection"));
                             TNot true (TAtom (TSearchId "other"))];
                       TAnd [TNot false (TAtom (TXOf (Some 1) "sel*"))]]) None in
  aggregation_free t = true
  /\ (transform t r1 ev_new None w_two).1 = Ok true.
Proof.
  intros t.
  assert (H : aggregation_free t = true) by run.
  split; [exact H|].
  rewrite (proj1 (compiled_condition_computes_formula (CO := demo_collaborators)
                    t r1 ev_new None w_two H)).
  run.
Defined.

Lemma connectives_short_circuit_witness :
  Forall (fun t => pipe_free t = true) [TSearchId "selection"]
  /\ transform (TAnd ([TSearchId "selection"] ++ TSearchId "other" :: [nested]))
               r1 ev_new None w_two
     = (Ok false, w_two).
Proof.
  assert (H : Forall (fun t => pipe_free t = true) [TSearchId "selection"])
    by (repeat constructor).
  split; [exact H|].
  apply (proj1 (connectives_short_circuit (CO := demo_collaborators) r1 ev_new
                  [TSearchId "selection"] (TSearchId "other") [nested] None w_two w_two H)).
  - constructor; [run|constructor].
  - rewrite (pipe_free_holds (CO := demo_collaborators) (TSearchId "other") eq_refl).
    assert (E : holds (CO := demo_collaborators) r1 ev_new (TSearchId "other") = false)
      by run.
    by rewrite E.
Defined.

Lemma plain_pipe_records_matches_witness :
  pipe_free (sel "selection") = true
  /\ (transform (TPipe (sel "selection") None) r1 ev_new None w_two).1 = Ok true
  /\ length (dd_read (events (state_of GlobalStore
               (transform (TPipe (sel "selection") None) r1 ev_new None w_two).2)) "rule-1")
     = 3%nat.
Proof.
  assert (H : pipe_free (sel "selection") = true) by run.
  split; [exact H|].
  destruct (plain_pipe_records_matches (CO := demo_collaborators) (sel "selection")
              r1 ev_new None w_two H) as (H1 & H2 & _).
  split; [rewrite H1; run|].
  apply (f_equal length) in H2. etrans; [exact H2|]. run.
Defined.

Lemma piped_count_includes_current_event_witness :
  pipe_free (sel "selection") = true
  /\ holds r1 ev_new (sel "selection") = true
  /\ str_truthy (get_timeframe r1) = false
  /\ (transform (piped COUNT (Some "bytes") None GT 2) r1 ev_new None w_two).1 = Ok true.
Proof.
  assert (H1 : pipe_free (sel "selection") = true) by run.
  assert (H2 : holds r1 ev_new (sel "selection") = true) by run.
  assert (H3 : str_truthy (get_timeframe r1) = false) by reflexivity.
  split; [exact H1|]. split; [exact H2|]. split; [exact H3|].
  unfold piped.
  rewrite (proj1 (piped_count_includes_current_event (CO := demo_collaborators)
                    (sel "selection") (Some "bytes") GT 2 r1 ev_new None w_two H1 H2 H3)).
  run.
Defined.

Lemma piped_grouped_count_counts_own_group_witness :
  let w := recorded [ev_ip1; ev_ip2] in
  pipe_free (sel "selection") = true
  /\ holds r1 ev_ip1 (sel "selection") = true
  /\ holds r1 ev_ips (sel "selection") = true
  /\ str_truthy (get_timeframe r1) = false
  /\ "src_ip" ≠ EmptyString
  /\ ev_ip1 ≠ ∅
  /\ ev_ips ≠ ∅
  /\ (transform (piped COUNT None (Some "src_ip") GT 1) r1 ev_ip1 None w).1 = Ok true
  /\ (transform (piped COUNT None (Some "src_ip") GT 1) r1 ev_ips None w).1
     = Raise TypeError
  /\ length (dd_read (events (state_of GlobalStore
               (transform (piped COUNT None (Some "src_ip") GT 1) r1 ev_ips None w).2))
               "rule-1") = 3%nat.
Proof.
  intros w.
  assert (H1 : pipe_free (sel "selection") = true) by run.
  assert (H2 : holds r1 ev_ip1 (sel "selection") = true) by run.
  assert (H2' : holds r1 ev_ips (sel "selection") = true) by run.
  assert (H3 : str_truthy (get_timeframe r1) = false) by reflexivity.
  assert (H4 : "src_ip" ≠ EmptyString) by discriminate.
  assert (H5 : ev_ip1 ≠ ∅) by (apply (truthy_field_not_empty _ "src_ip"); run).
  assert (H5' : ev_ips ≠ ∅) by (apply (truthy_field_not_empty _ "src_ip"); run).
  split; [exact H1|]. split; [exact H2|]. split; [exact H2'|]. split; [exact H3|].
  split; [exact H4|]. split; [exact H5|]. split; [exact H5'|].
  unfold piped.
  split.
  { rewrite (proj1 (piped_grouped_count_counts_own_group (CO := demo_collaborators)
                      (sel "selection") None "src_ip" GT 1 r1 ev_ip1 None w
                      H1 H2 H3 H4 H5)).
    run. }
  destruct (piped_grouped_count_counts_own_group (CO := demo_collaborators)
              (sel "selection") None "src_ip" GT 1 r1 ev_ips None w
              H1 H2' H3 H4 H5') as (Hr & Hev).
  split; [rewrite Hr; run|].
  apply (f_equal length) in Hev. etrans; [exact Hev|]. run.
Defined.

Lemma near_clause_forwards_witness :
  pipe_free (sel "selection") = true
  /\ pipe_free (sel "other") = true
  /\ (transform (TPipe (sel "selection") (Some (AggNear (sel "other")))) r1 ev_new None
                w_two).1 = Ok false.
Proof.
  assert (H1 : pipe_free (sel "selection") = true) by run.
  assert (H2 : pipe_free (sel "other") = true) by run.
  split; [exact H1|]. split; [exact H2|].
  rewrite (proj1 (near_clause_forwards (CO := demo_collaborators) (sel "selection")
                    (sel "other") r1 ev_new None w_two H1 H2)).
  run.
Defined.



Lemma bad_timeframe_raises_after_recording_witness :
  pipe_free (sel "selection") = true
  /\ holds rbad ev_new (sel "selection") = true
  /\ _parse_timeframe "xs" = Raise ValueError
  /\ (transform (piped COUNT None None GT 1) rbad ev_new None w_two).1 = Raise ValueError
  /\ length (dd_read (events (state_of GlobalStore
               (transform (piped COUNT None None GT 1) rbad ev_new None w_two).2)) "rule-1")
     = 3%nat.
Proof.
  assert (H1 : pipe_free (sel "selection") = true) by run.
  assert (H2 : holds rbad ev_new (sel "selection") = true) by run.
  assert (H3 : _parse_timeframe "xs" = Raise ValueError) by run.
  split; [exact H1|]. split; [exact H2|]. split; [exact H3|].
  destruct (bad_timeframe_raises_after_recording (CO := demo_collaborators)
              (sel "selection") COUNT None None GT 1 rbad ev_new None w_two "xs" ValueError
              H1 H2 eq_refl H3) as (Hr & Hev).
  split; [exact Hr|].
  apply (f_equal length) in Hev. etrans; [exact Hev|]. run.
Defined.
